(** * A shallow embedding of the synchronisation engine of ipfs-sync

    Sources: [db.go] (fingerprint store), [fsnotify.go] (watcher),
    [main.go] lines 1-796 (remote calls, fault recovery, WatchDog) and
    [configuration.go] ([ProcessFlags]).

    Conventions of the embedding:
    - a Go [[]byte] is a [list Z] whose elements are in [0, 255]; a nil
      slice is [None] where the code tests [!= nil], and [[]] where it is
      only converted with [string(...)];
    - the LevelDB handle [DB] is a [gmap string bytes] with the raw keys the
      code writes (a path, and ["ts_" ++ path]);
    - every request to the IPFS node (or to Estuary) is a [Call] appended to
      a trace; its answer is taken from a list of pending responses;
    - [log.Fatalln] and [log.Panicln], and the run-time panics of Go (nil
      dereference, index out of range), end the computation with [Abort] (the process ends). *)

From Stdlib Require Import ZArith String Ascii List Bool Lia.
From stdpp Require Import base gmap strings list.

Set Warnings "-register-all".

Open Scope Z_scope.

Abbreviation bytes := (list Z).

(** ** Strings as the Go code splits and joins them *)

Module GoStr.

(** [strings.Split(s, string(sep))] for a one-character separator: [n]
    separators give [n+1] pieces. *)
Fixpoint split (sep : ascii) (s : string) : list string :=
  match s with
  | EmptyString => [EmptyString]
  | String c s' =>
      let rest := split sep s' in
      if Ascii.eqb c sep then EmptyString :: rest
      else match rest with
           | h :: t => String c h :: t
           | [] => [String c EmptyString]
           end
  end.

(** [strings.Join(l, string(sep))]. *)
Fixpoint join (sep : ascii) (l : list string) : string :=
  match l with
  | [] => EmptyString
  | [x] => x
  | x :: l' => (x ++ String sep EmptyString ++ join sep l')%string
  end.

(** [s[n:]] (the code only slices below the length). *)
Definition drop (n : nat) (s : string) : string :=
  substring n (String.length s - n) s.

(** [strings.HasPrefix(s, p)]. *)
Definition has_prefix (p s : string) : bool := String.prefix p s.

(** [strings.HasSuffix(s, suf)]. *)
Definition has_suffix (suf s : string) : bool :=
  Nat.leb (String.length suf) (String.length s) &&
  String.eqb (drop (String.length s - String.length suf) s) suf.

(** The last element of a split ([l[len(l)-1]]), and the one before it;
    [None] is Go's index-out-of-range panic. *)
Fixpoint last_seg (l : list string) : option string :=
  match l with
  | [] => None
  | [x] => Some x
  | _ :: l' => last_seg l'
  end.

Fixpoint second_last_seg (l : list string) : option string :=
  match l with
  | [] | [_] => None
  | [x; _] => Some x
  | _ :: l' => second_last_seg l'
  end.

(** [s[0] == '.'], with [None] for the panic on an empty string. *)
Definition first_is_dot (s : string) : option bool :=
  match s with
  | EmptyString => None
  | String c _ => Some (Ascii.eqb c "."%char)
  end.

End GoStr.

Definition sep : ascii := "/"%char.

(** ** Responses, calls and the remote monad *)

(** What a request returns, as the caller decodes it: a body whose [Hash]
    (or [Path]) field is [hash], an error text (an [ErrorStruct] body, a
    transport failure or an [os.Open] failure before the request), or an
    Estuary pin list: (RequestId, Pin.Cid) with [None] for a missing or
    null [pin] object. *)
Inductive Resp :=
| ROk (hash : string)
| RErr (msg : string)
| RPins (results : list (string * option string)).

Inductive Call :=
| CAdd (path : string) (nocopy onlyhash : bool)   (* add?nocopy=..&only-hash=.. *)
| CMkdir (path : string)                          (* files/mkdir?parents=true *)
| CRm (path : string)                             (* files/rm?force=true *)
| CCp (src dst : string)                          (* files/cp *)
| CStat (path : string)                           (* files/stat?hash=true *)
| CPinUpdate (from to : string)                   (* pin/update *)
| CPinAdd (cid : string)                          (* pin/add *)
| CPublish (cid key : string)                     (* name/publish *)
| CRemoveCID (cid : string)                       (* RemoveCID: refs + block/rm *)
| CCleanFilestore                                 (* CleanFilestore: filestore/verify *)
| CEstGet (cid : string)                          (* GET pinning/pins?cid= *)
| CEstReplace (reqid cid name : string)           (* POST pinning/pins/<id> *)
| CEstPin (cid name : string)                     (* POST pinning/pins *)
| CVersion                                        (* version *)
| CKeyList.                                       (* key/list *)

Inductive Outcome (A : Type) :=
| Done (a : A)
| Abort (msg : string).
Arguments Done {A} a.
Arguments Abort {A} msg.

(** A computation reads the pending responses and emits the calls it makes. *)
Definition M (A : Type) : Type := list Resp -> Outcome A * list Resp * list Call.

Definition ret {A} (a : A) : M A := fun rs => (Done a, rs, []).

Definition bind {A B} (m : M A) (k : A -> M B) : M B :=
  fun rs =>
    match m rs with
    | (Done a, rs1, tr1) =>
        match k a rs1 with (o, rs2, tr2) => (o, rs2, tr1 ++ tr2) end
    | (Abort e, rs1, tr1) => (Abort e, rs1, tr1)
    end.

Definition abort {A} (msg : string) : M A := fun rs => (Abort msg, rs, []).

Notation "'let!' x ':=' m 'in' k" := (bind m (fun x => k))
  (at level 200, x name, m at level 100, k at level 200).
Notation "'run!' m 'in' k" := (bind m (fun _ => k))
  (at level 200, m at level 100, k at level 200).

(** The answer to a request once the node has nothing more to say: the
    connection fails. *)
Definition refused : Resp := RErr "connection refused".

Definition request (c : Call) : M Resp :=
  fun rs =>
    match rs with
    | [] => (Done refused, [], [c])
    | r :: rs' => (Done r, rs', [c])
    end.

(** A call whose own requests and answers never reach the caller (the
    recovery helpers [RemoveCID] and [CleanFilestore] return nothing). *)
Definition notify (c : Call) : M unit := fun rs => (Done tt, rs, [c]).

(** Go's retry by recursion is unbounded; every round consumes at least one
    response, and [refused] is not a recognised error, so [S (length rs)]
    rounds are never exhausted. *)
Definition rounds : M nat := fun rs => (Done (S (length rs)), rs, []).

(** ** Fingerprint store ([db.go]) *)

Record FileHash := mkFileHash {
  PathOnDisk : string;
  Hash : option bytes;
  FakeHash : option bytes
}.

(** [DB] together with the in-memory mirror [Hashes]; [InitDB] creates
    both, so the store is absent exactly when [DB == nil]. *)
Record Store := mkStore {
  db : gmap string bytes;
  hashes : gmap string FileHash
}.

Definition go_bytes (o : option bytes) : bytes :=
  match o with Some b => b | None => [] end.

Definition ts_key (p : string) : string := ("ts_" ++ p)%string.

(** [func (fh *FileHash) Update() bool] for a non-nil [fh]. *)
Definition Update (st : option Store) (fh : FileHash) : bool * option Store :=
  match st with
  | None => (false, None)
  | Some s =>
      let d := db s in
      let '(hashChanged, d1) :=
        match Hash fh with
        | Some h =>
            match d !! PathOnDisk fh with
            | Some v => if decide (v = h) then (false, d)
                        else (true, <[PathOnDisk fh := h]> d)
            | None => (true, <[PathOnDisk fh := h]> d)
            end
        | None => (true, d)
        end in
      let ts := go_bytes (FakeHash fh) in
      let '(tsChanged, d2) :=
        match d1 !! ts_key (PathOnDisk fh) with
        | Some v => if decide (v = ts) then (false, d1)
                    else (true, <[ts_key (PathOnDisk fh) := ts]> d1)
        | None => (true, <[ts_key (PathOnDisk fh) := ts]> d1)
        end in
      (hashChanged && tsChanged, Some (mkStore d2 (hashes s)))
  end.

(** The loop body of [Delete] over the keys the iterator yields. *)
Fixpoint delete_keys (ks : list string) (s : Store) : Store :=
  match ks with
  | [] => s
  | k :: ks' =>
      delete_keys ks'
        (mkStore (delete (ts_key k) (delete k (db s))) (delete k (hashes s)))
  end.

(** The keys of [util.BytesPrefix(path)], in the iterator's order. *)
Definition prefix_keys (p : string) (d : gmap string bytes) : list string :=
  filter (fun k => String.prefix p k = true) (map fst (map_to_list d)).

(** [func (fh *FileHash) Delete(path string)]; [fh] is [None] for a nil
    receiver (a directory). *)
Definition delete_path (fh : option FileHash) (path : string) : string :=
  match fh with Some f => PathOnDisk f | None => path end.

Definition Delete (st : option Store) (fh : option FileHash) (path : string)
  : option Store :=
  match st with
  | None => None
  | Some s =>
      let p := delete_path fh path in
      Some (delete_keys (prefix_keys p (db s)) s)
  end.

(** [GetHashValue(fpath, true)]: sixteen bytes, [byte(0xff & (x >> k))]
    for the shifts the code lists, on the int64 size and Unix mtime. *)
Definition shifts : list Z := [0; 8; 16; 32; 40; 48; 56; 64].

Definition enc64 (x : Z) : bytes := map (fun k => Z.land 255 (Z.shiftr x k)) shifts.

Definition cheap_fingerprint (size mtime : Z) : bytes := enc64 size ++ enc64 mtime.

Record StatInfo := mkStat { st_isdir : bool; st_size : Z; st_mtime : Z }.

(** The local file system as the code observes it: [os.Stat], the xxhash
    of a file's content, and the entries [filepath.WalkDir] finds below a
    directory (names in lexical order, as [os.ReadDir] returns them). *)
Inductive node :=
| NFile
| NDir (kids : list (string * node)).

Record FS := mkFS {
  fs_stat : string -> option StatInfo;
  fs_xxhash : string -> option bytes;
  fs_tree : string -> node
}.

Definition GetHashValue (fs : FS) (fpath : string) (dontHash : bool) : option bytes :=
  if dontHash then
    match fs_stat fs fpath with
    | None => None
    | Some st => Some (cheap_fingerprint (st_size st) (st_mtime st))
    end
  else fs_xxhash fs fpath.

(** [func (fh *FileHash) Recalculate(PathOnDisk string, dontHash bool)]. *)
Definition Recalculate (fs : FS) (fh : FileHash) (path : string) (dontHash : bool)
  : FileHash :=
  let timestamp := GetHashValue fs path true in
  if decide (go_bytes timestamp = go_bytes (FakeHash fh)) then
    mkFileHash path (Hash fh) (FakeHash fh)
  else if dontHash then mkFileHash path (Hash fh) timestamp
  else mkFileHash path (GetHashValue fs path false) timestamp.

(** ** Remote operations ([main.go]) *)

(** Global configuration the code reads from package variables. *)
Record Config := mkConfig {
  BasePath : string;
  EstuaryAPIKey : string;
  IgnoreHidden : bool;
  Ignore : list string
}.

Definition KeySpace : string := "ipfs-sync.".

(** A configured directory ([*DirKey]; [DirKeys] holds pointers, so the
    assignment [dk.CID = fCID] is seen by the next pass). *)
Record DirKey := mkDirKey {
  dk_ID : string;
  dk_Dir : string;
  dk_MFSPath : string;
  dk_CID : string;
  dk_Nocopy : bool;
  dk_DontHash : bool;
  dk_Pin : bool;
  dk_Estuary : bool
}.

Definition set_CID (dk : DirKey) (c : string) : DirKey :=
  mkDirKey (dk_ID dk) (dk_Dir dk) (dk_MFSPath dk) c (dk_Nocopy dk)
           (dk_DontHash dk) (dk_Pin dk) (dk_Estuary dk).

(** The [error] of [doRequest], and the [Hash] field a [HashStruct] decodes
    from the body ([""] when the body has none). *)
Definition err_of (r : Resp) : option string :=
  match r with RErr e => Some e | _ => None end.

Definition hash_of (r : Resp) : string :=
  match r with ROk h => h | _ => EmptyString end.

(** The error text [HandleBadBlockError] recognises. *)
Definition bad_block_text (txt : string) : bool :=
  GoStr.has_prefix "failed to get block" txt ||
  GoStr.has_suffix "no such file or directory" txt.

(** [strings.Join(toSplit[:len(toSplit)-1], "/")]. *)
Definition parent_of (p : string) : string :=
  GoStr.join sep (removelast (GoStr.split sep p)).

Section Remote.

Variable cfg : Config.

Local Open Scope string_scope.

(** [GetFileCID]: the error of [doRequest] is dropped, an undecodable or
    error body yields [""]. *)
Definition GetFileCID (filePath : string) : M string :=
  let! r := request (CStat (BasePath cfg ++ filePath)) in
  ret (hash_of r).

Definition RemoveFile (fpath : string) : M (option string) :=
  let! r := request (CRm (BasePath cfg ++ fpath)) in ret (err_of r).

Definition MakeDir (path : string) : M (option string) :=
  let! r := request (CMkdir (BasePath cfg ++ path)) in ret (err_of r).

(** [IPFSAddFile]: [inl hash] or [inr err].  An error body from the node is
    decoded as a [HashStruct] without error, so only [RErr] (open,
    transport or decoding failure) gives [inr]. *)
Definition IPFSAddFile (fpath : string) (nocopy onlyhash : bool)
  : M (string + string) :=
  let! r := request (CAdd fpath nocopy onlyhash) in
  ret (match r with RErr e => inr e | _ => inl (hash_of r) end).

(** [HandleBadBlockError]. *)
Definition HandleBadBlockError (err : string) (fpath : string) (nocopy : bool)
  : M bool :=
  if bad_block_text err then
    run! (if String.eqb fpath "" then notify CCleanFilestore
          else let! r := IPFSAddFile fpath nocopy true in
               match r with
               | inl cid => notify (CRemoveCID cid)
               | inr _ => ret tt
               end) in
    ret true
  else ret false.

(** [AddFile], one round per (recursive) call. *)
Fixpoint AddFile_rounds (n : nat) (from to : string) (nocopy makedir overwrite : bool)
  : M (string * option string) :=
  match n with
  | O => ret ("", Some "retry rounds exhausted")
  | S n' =>
      let! r := IPFSAddFile from nocopy false in
      match r with
      | inr e => ret ("", Some e)
      | inl h =>
          let! me := (if makedir then MakeDir (parent_of to) else ret None) in
          match me with
          | Some e => ret ("", Some e)
          | None =>
              run! (if overwrite then RemoveFile to else ret None) in
              let! c := request (CCp ("/ipfs/" ++ h) (BasePath cfg ++ to)) in
              match err_of c with
              | None => ret (h, None)
              | Some e =>
                  let! b := HandleBadBlockError e from nocopy in
                  if b then
                    run! AddFile_rounds n' from to nocopy makedir overwrite in
                    ret (h, Some e)
                  else ret (h, Some e)
              end
          end
      end
  end.

Definition AddFile (from to : string) (nocopy makedir overwrite : bool)
  : M (string * option string) :=
  let! n := rounds in AddFile_rounds n from to nocopy makedir overwrite.

Definition Pin (cid : string) : M (option string) :=
  let! r := request (CPinAdd cid) in ret (err_of r).

(** [UpdatePin], one round per (recursive) call. *)
Fixpoint UpdatePin_rounds (n : nat) (from to : string) (nocopy : bool) : M unit :=
  match n with
  | O => ret tt
  | S n' =>
      let! r := request (CPinUpdate from to) in
      match err_of r with
      | None => ret tt
      | Some e =>
          let! b := HandleBadBlockError e "" nocopy in
          if b then UpdatePin_rounds n' from to nocopy
          else run! Pin to in ret tt
      end
  end.

Definition UpdatePin (from to : string) (nocopy : bool) : M unit :=
  let! n := rounds in UpdatePin_rounds n from to nocopy.

Definition Publish (cid key : string) : M (option string) :=
  let! r := request (CPublish cid (KeySpace ++ key)) in ret (err_of r).

(** [doEstuaryRequest]: no request at all with a blank key. *)
Definition doEstuaryRequest (c : Call) : M Resp :=
  if String.eqb (EstuaryAPIKey cfg) "" then ret (RErr "Estuary API key is blank.")
  else request c.

Definition PinEstuary (cid name : string) : M (option string) :=
  let! r := doEstuaryRequest (CEstPin cid name) in ret (err_of r).

(** The FIXME loop of [UpdatePinEstuary]: [pinResult.Pin.Cid] dereferences
    [Pin] without a nil check. *)
Fixpoint find_pin (oldcid : string) (results : list (string * option string))
  : M (option string) :=
  match results with
  | [] => ret None
  | (_, None) :: _ => abort "invalid memory address or nil pointer dereference"
  | (rid, Some c) :: rest =>
      if String.eqb c oldcid then ret (Some rid) else find_pin oldcid rest
  end.

Definition UpdatePinEstuary (oldcid newcid name : string) : M unit :=
  let! r := doEstuaryRequest (CEstGet oldcid) in
  match r with
  | RErr _ => ret tt
  | _ =>
      let results := match r with RPins l => l | _ => [] end in
      let! found := find_pin oldcid results in
      match found with
      | Some rid =>
          let! r2 := doEstuaryRequest (CEstReplace rid newcid name) in
          match err_of r2 with
          | None => ret tt
          | Some _ => run! PinEstuary newcid name in ret tt
          end
      | None => run! PinEstuary newcid name in ret tt
      end
  end.

(** One directory of one pass of WatchDog's main loop. *)
Definition watchdog_step (dk : DirKey) : M DirKey :=
  let! fCID := GetFileCID (dk_MFSPath dk) in
  if Nat.ltb 0 (String.length fCID) && negb (String.eqb fCID (dk_CID dk)) then
    run! (if dk_Pin dk then UpdatePin (dk_CID dk) fCID (dk_Nocopy dk) else ret tt) in
    run! (if dk_Estuary dk
          then UpdatePinEstuary (dk_CID dk) fCID (hd "" (GoStr.split sep (dk_MFSPath dk)))
          else ret tt) in
    run! Publish fCID (dk_ID dk) in
    ret (set_CID dk fCID)
  else ret dk.

(** One pass over all directories (after [time.Sleep(SyncTime)]). *)
Fixpoint watchdog_pass (dks : list DirKey) : M (list DirKey) :=
  match dks with
  | [] => ret []
  | dk :: rest =>
      let! dk' := watchdog_step dk in
      let! rest' := watchdog_pass rest in
      ret (dk' :: rest')
  end.

(** [n] iterations of the endless [for] loop. *)
Fixpoint watchdog_loop (n : nat) (dks : list DirKey) : M (list DirKey) :=
  match n with
  | O => ret dks
  | S n' => let! dks' := watchdog_pass dks in watchdog_loop n' dks'
  end.

End Remote.

(** ** Filesystem watcher ([fsnotify.go]) *)

(** The hidden test written out three times in [watchDir]: the last
    segment of the split path, or the one before it when the path ends
    with a separator; [None] is the index panic. *)
Definition hidden_check (path : string) : option bool :=
  let segs := GoStr.split sep path in
  match GoStr.last_seg segs with
  | None => None
  | Some (String _ _ as l) => GoStr.first_is_dot l
  | Some EmptyString =>
      match GoStr.second_last_seg segs with
      | None => None
      | Some s => GoStr.first_is_dot s
      end
  end.

(** [findInStringSlice(Ignore, splitName[len(splitName)-1]) > -1] with
    [splitName := strings.Split(name, ".")]. *)
Definition ignored_suffix (cfg : Config) (name : string) : bool :=
  match GoStr.last_seg (GoStr.split "."%char name) with
  | Some x => existsb (String.eqb x) (Ignore cfg)
  | None => false
  end.

(** [filepath.Join(dir, name)] for a clean [dir]. *)
Definition path_join (p nm : string) : string :=
  if GoStr.has_suffix "/" p then (p ++ nm)%string else (p ++ "/" ++ nm)%string.

(** What a [WalkDirFunc] answers: [fs.SkipDir] (only ever for a
    directory here), [nil] with the paths it collected, or a panic. *)
Inductive visit := VSkipDir | VCont (out : list string) | VPanic.

(** [filepath.WalkDir(p, cb)] below the entry [n] found at [p]. *)
Fixpoint walk (cb : string -> bool -> visit) (p : string) (n : node)
  : option (list string) :=
  match n with
  | NFile =>
      match cb p false with
      | VCont o => Some o
      | VSkipDir => Some []
      | VPanic => None
      end
  | NDir kids =>
      match cb p true with
      | VSkipDir => Some []
      | VPanic => None
      | VCont o =>
          let fix go (ks : list (string * node)) : option (list string) :=
            match ks with
            | [] => Some []
            | (nm, k) :: ks' =>
                match walk cb (path_join p nm) k with
                | None => None
                | Some a => match go ks' with
                            | None => None
                            | Some b => Some (a ++ b)
                            end
                end
            end in
          match go kids with
          | None => None
          | Some rest => Some (o ++ rest)
          end
      end
  end.

Section Watcher.

Variable cfg : Config.

Local Open Scope string_scope.

Definition hidden_dir_visit (path : string) (keep : list string) : visit :=
  if IgnoreHidden cfg then
    match hidden_check path with
    | None => VPanic
    | Some true => VSkipDir
    | Some false => VCont keep
    end
  else VCont keep.

(** [watchThis]: collects the directories [watcher.Add] registers. *)
Definition watchThis (path : string) (isdir : bool) : visit :=
  if isdir then hidden_dir_visit path [path] else VCont [].

(** [addDir]: collects the files it passes to [addFile(path, false)]. *)
Definition addDir (path : string) (isdir : bool) : visit :=
  if isdir then hidden_dir_visit path [] else VCont [path].

(** The values [watchDir(dir, nocopy, dontHash)] closes over. *)
Record Watch := mkWatch {
  w_dir : string;
  w_nocopy : bool;
  w_dontHash : bool
}.

Definition dirName (w : Watch) : string :=
  match GoStr.second_last_seg (GoStr.split sep (w_dir w)) with
  | Some d => d
  | None => ""
  end.

(** The watcher's mutable state: [localDirs], the registered watches, and
    the shared fingerprint store ([Hashes] and [DB]). *)
Record WState := mkWState {
  localDirs : gset string;
  watches : gset string;
  store : option Store
}.

(** The [Hashes != nil] block of [addFile]: recalculate (in place, or in a
    fresh [FileHash]) and [Update]. *)
Definition store_put (fs : FS) (st : option Store) (fname : string) (dontHash : bool)
  : option Store :=
  match st with
  | None => None
  | Some s =>
      let old := match hashes s !! fname with
                 | Some f => f
                 | None => mkFileHash "" None None
                 end in
      let fh := Recalculate fs old fname dontHash in
      snd (Update (Some (mkStore (db s) (<[fname := fh]> (hashes s)))) fh)
  end.

(** The [addFile] closure of [watchDir]. *)
Definition addFile (fs : FS) (w : Watch) (fname : string) (overwrite : bool)
  (s : WState) : M WState :=
  let parentDir := GoStr.join sep (removelast (GoStr.split sep fname)) in
  let makeDir := negb (bool_decide (parentDir ∈ localDirs s)) in
  let ld := if makeDir then {[parentDir]} ∪ localDirs s else localDirs s in
  let mfsPath := GoStr.drop (String.length (w_dir w)) fname in
  run! AddFile cfg fname (dirName w ++ "/" ++ mfsPath) (w_nocopy w) makeDir overwrite in
  ret (mkWState ld (watches s) (store_put fs (store s) fname (w_dontHash w))).

Fixpoint add_files (fs : FS) (w : Watch) (files : list string) (overwrite : bool)
  (s : WState) : M WState :=
  match files with
  | [] => ret s
  | f :: rest => let! s' := addFile fs w f overwrite s in add_files fs w rest overwrite s'
  end.

Inductive Op := OpCreate | OpWrite | OpRemove | OpRename | OpChmod.

Record Event := mkEvent { ev_name : string; ev_op : Op }.

(** One iteration of the event loop of [watchDir] for [watcher.Events]. *)
Definition handle_event (fs : FS) (w : Watch) (ev : Event) (s : WState) : M WState :=
  let name := ev_name ev in
  if String.eqb name "" then ret s else
  let! hid := (if IgnoreHidden cfg then
                 match hidden_check name with
                 | None => abort "index out of range"
                 | Some b => ret b
                 end
               else ret false) in
  if hid then ret s else
  if ignored_suffix cfg name then ret s else
  match ev_op ev with
  | OpCreate =>
      match fs_stat fs name with
      | None => ret s
      | Some st =>
          if negb (st_isdir st) then addFile fs w name true s
          else
            match walk watchThis name (fs_tree fs name) with
            | None => abort "panic in watchThis"
            | Some ws =>
                let s1 := mkWState (localDirs s) (list_to_set ws ∪ watches s) (store s) in
                match walk addDir name (fs_tree fs name) with
                | None => abort "panic in addDir"
                | Some files => add_files fs w files false s1
                end
            end
      end
  | OpWrite => addFile fs w name true s
  | OpRemove | OpRename =>
      match fs_stat fs name with
      | Some _ => ret s
      | None =>
          let fpath := GoStr.drop (String.length (w_dir w)) name in
          run! RemoveFile cfg (dirName w ++ "/" ++ fpath) in
          ret (mkWState (localDirs s ∖ {[name]}) (watches s ∖ {[name]})
                 (match store s with
                  | None => None
                  | Some st => Delete (Some st) (hashes st !! name) name
                  end))
      end
  | OpChmod => ret s
  end.

(** The event loop over an ordered stream of events. *)
Fixpoint handle_events (fs : FS) (w : Watch) (evs : list Event) (s : WState) : M WState :=
  match evs with
  | [] => ret s
  | ev :: rest => let! s' := handle_event fs w ev s in handle_events fs w rest s'
  end.

End Watcher.

(** ** Start-up validation ([ProcessFlags] and [InitDB]) *)

Definition with_trailing_sep (dk : DirKey) : DirKey :=
  if GoStr.has_suffix "/" (dk_Dir dk) then dk
  else mkDirKey (dk_ID dk) (dk_Dir dk ++ "/")%string (dk_MFSPath dk) (dk_CID dk)
         (dk_Nocopy dk) (dk_DontHash dk) (dk_Pin dk) (dk_Estuary dk).

(** [ProcessFlags] after flag and config parsing: [license] and [version]
    are the flags that print and exit, [dbPath] the configured store path
    ([""] for none) and [dbOpen] what [leveldb.OpenFile] yields ([None] on
    error). *)
Definition ProcessFlags (license version : bool) (dirKeys : list DirKey)
  (dbPath : string) (dbOpen : option (gmap string bytes))
  : M (list DirKey * option Store) :=
  if license then abort "exit 0" else
  if version then abort "exit 0" else
  match dirKeys with
  | [] => abort "dirs field is required as flag, or in config."
  | _ =>
      if existsb (fun dk => String.eqb (dk_Dir dk) "") dirKeys
      then abort "Dir entry path cannot be empty."
      else
        let dks := map with_trailing_sep dirKeys in
        let! st := (if String.eqb dbPath "" then ret None
                    else match dbOpen with
                         | None => abort "leveldb: cannot open"
                         | Some d => ret (Some (mkStore d ∅))
                         end) in
        let! r := request CVersion in
        match err_of r with
        | Some e => abort ("Failed to connect to end point: " ++ e)%string
        | None => ret (dks, st)
        end
  end.

(** ** Directory scans ([main.go], [db.go]) *)

(** [findInStringSlice]: the index of the first [item == val], or [-1]. *)
Fixpoint find_from (i : Z) (slice : list string) (val : string) : Z :=
  match slice with
  | [] => -1
  | item :: rest => if String.eqb item val then i else find_from (i + 1) rest val
  end.

Definition findInStringSlice (slice : list string) (val : string) : Z :=
  find_from 0 slice val.

(** The [WalkDirFunc] of [filePathWalkDir]: a file is kept unless
    [IgnoreHidden] is set and its last segment starts with ['.'] (indexing
    an empty segment panics); a directory whose non-empty last segment
    starts with ['.'] is skipped when [IgnoreHidden] is set. *)
Definition filePathWalkDir_visit (cfg : Config) (path : string) (isdir : bool) : visit :=
  let last := GoStr.last_seg (GoStr.split sep path) in
  if isdir then
    if IgnoreHidden cfg then
      match last with
      | Some (String c _) => if Ascii.eqb c "."%char then VSkipDir else VCont []
      | _ => VCont []
      end
    else VCont []
  else
    if IgnoreHidden cfg then
      match last with
      | None => VPanic
      | Some l => match GoStr.first_is_dot l with
                  | None => VPanic
                  | Some true => VCont []
                  | Some false => VCont [path]
                  end
      end
    else VCont [path].

(** [filePathWalkDir(root)]; [None] is a panic of the callback. *)
Definition filePathWalkDir (cfg : Config) (fs : FS) (root : string) : option (list string) :=
  walk (filePathWalkDir_visit cfg) root (fs_tree fs root).

Section Scan.

Variable cfg : Config.

Local Open Scope string_scope.

(** The loop of [AddDir] over the files of the walk, with its own
    [localDirs]; errors of [AddFile] are only logged. *)
Fixpoint AddDir_loop (path dirName : string) (nocopy : bool) (files : list string)
  (localDirs : gset string) : M unit :=
  match files with
  | [] => ret tt
  | file :: rest =>
      let filePathSplit := GoStr.split sep file in
      let! hid := (if IgnoreHidden cfg then
                     match GoStr.last_seg filePathSplit with
                     | None => abort "index out of range"
                     | Some l => match GoStr.first_is_dot l with
                                 | None => abort "index out of range"
                                 | Some b => ret b
                                 end
                     end
                   else ret false) in
      if hid then AddDir_loop path dirName nocopy rest localDirs else
      if ignored_suffix cfg file then AddDir_loop path dirName nocopy rest localDirs else
      let parentDir := GoStr.join sep (removelast filePathSplit) in
      let makeDir := negb (bool_decide (parentDir ∈ localDirs)) in
      let ld := if makeDir then {[parentDir]} ∪ localDirs else localDirs in
      let mfsPath := GoStr.drop (String.length path) file in
      run! AddFile cfg file (dirName ++ "/" ++ mfsPath) nocopy makeDir false in
      AddDir_loop path dirName nocopy rest ld
  end.

(** [AddDir(path, nocopy, pin, estuary)]: the error it returns is the one
    of [filePathWalkDir], which the model never produces. *)
Definition AddDir (fs : FS) (path : string) (nocopy pin estuary : bool)
  : M (string * option string) :=
  match GoStr.second_last_seg (GoStr.split sep path) with
  | None => abort "index out of range"
  | Some dirName =>
      match filePathWalkDir cfg fs path with
      | None => abort "index out of range"
      | Some files =>
          run! AddDir_loop path dirName nocopy files ∅ in
          let! cid := GetFileCID cfg dirName in
          run! (if pin then Pin cid else ret None) in
          run! (if estuary then PinEstuary cfg cid dirName else ret None) in
          ret (cid, None)
      end
  end.

(** [HashDir(path, dontHash)] against the open store: for each walked
    file whose suffix is not ignored, the stored hash (unless [dontHash])
    and timestamp are loaded and [Recalculate]d. [None] is a panic of the
    walk. *)
Definition HashDir (fs : FS) (s : Store) (path : string) (dontHash : bool)
  : option (gmap string FileHash) :=
  match filePathWalkDir cfg fs path with
  | None => None
  | Some files =>
      Some (fold_left
              (fun (m : gmap string FileHash) file =>
                 if ignored_suffix cfg file then m
                 else
                   let hash := if dontHash then None else db s !! file in
                   let timestamp := db s !! ts_key file in
                   let fh := mkFileHash file hash timestamp in
                   <[file := Recalculate fs fh file dontHash]> m)
              files ∅)
  end.

End Scan.

(** ** Block clean-up and name resolution ([main.go]) *)

(** The requests of [RemoveCID], [RemoveBlock], [CleanFilestore] and
    [ResolveIPNS], and their decoded answers: a field of the body, an
    error text, or a stream of JSON values ([None] for a value of the
    wrong shape, which [Decode] rejects and the loop skips). *)
Module Node.

Inductive Req :=
| BlockRm (cid : string)            (* block/rm?arg= *)
| PinRm (cid : string)              (* pin/rm?arg= *)
| Refs (cid : string)               (* refs?unique=true&recursive=true&arg= *)
| FilestoreVerify                   (* filestore/verify *)
| NameResolve (key : string).       (* name/resolve?arg= *)

(** A [RefResp] is (Err, Ref); a [FileStoreEntry] is (Status, Key./). *)
Inductive Ans :=
| AOk (field : string)
| AErr (msg : string)
| ARefs (items : list (option (string * string)))
| AEntries (items : list (option (Z * string))).

Definition M (A : Type) : Type := list Ans -> Outcome A * list Ans * list Req.

Definition ret {A} (a : A) : M A := fun rs => (Done a, rs, []).

Definition bind {A B} (m : M A) (k : A -> M B) : M B :=
  fun rs =>
    match m rs with
    | (Done a, rs1, tr1) =>
        match k a rs1 with (o, rs2, tr2) => (o, rs2, tr1 ++ tr2) end
    | (Abort e, rs1, tr1) => (Abort e, rs1, tr1)
    end.

Local Notation "'nlet!' x ':=' m 'in' k" := (bind m (fun x => k))
  (at level 200, x name, m at level 100, k at level 200).
Local Notation "'nrun!' m 'in' k" := (bind m (fun _ => k))
  (at level 200, m at level 100, k at level 200).

Definition request (q : Req) : M Ans :=
  fun rs =>
    match rs with
    | [] => (Done (AErr "connection refused"), [], [q])
    | r :: rs' => (Done r, rs', [q])
    end.

Definition rounds : M nat := fun rs => (Done (S (length rs)), rs, []).

Local Open Scope string_scope.

(** The CID a "pinned ..." error of [block/rm] names: the third
    space-separated word, or the block itself when there are fewer. *)
Definition pinned_cid (cid e : string) : string :=
  match nth_error (GoStr.split " "%char e) 2 with
  | Some c2 => c2
  | None => cid
  end.

(** The [for] loop of [RemoveBlock], one round per [block/rm]. *)
Fixpoint RemoveBlock_rounds (n : nat) (cid : string) : M unit :=
  match n with
  | O => ret tt
  | S n' =>
      nlet! r := request (BlockRm cid) in
      match r with
      | AErr e =>
          if GoStr.has_prefix "pinned" e then
            nrun! request (PinRm (pinned_cid cid e)) in
            RemoveBlock_rounds n' cid
          else ret tt
      | _ => ret tt
      end
  end.

Definition RemoveBlock (cid : string) : M unit :=
  nlet! n := rounds in RemoveBlock_rounds n cid.

(** The decoding loop of [RemoveCID]. *)
Fixpoint remove_refs (cid : string) (items : list (option (string * string))) : M unit :=
  match items with
  | [] => ret tt
  | None :: rest => remove_refs cid rest
  | Some (_, ref) :: rest =>
      let newcid := if String.eqb ref "" then cid else ref in
      nrun! RemoveBlock newcid in remove_refs cid rest
  end.

(** [RemoveCID]: a transport error ends it; an answer that is not a
    stream of refs is an empty stream. *)
Definition RemoveCID (cid : string) : M unit :=
  nlet! r := request (Refs cid) in
  match r with
  | AErr _ => ret tt
  | _ =>
      let items := match r with ARefs l => l | _ => [] end in
      match items with
      | [] => RemoveBlock cid
      | _ => remove_refs cid items
      end
  end.

Definition NoFile : Z := 11.

Fixpoint clean_entries (items : list (option (Z * string))) : M unit :=
  match items with
  | [] => ret tt
  | None :: rest => clean_entries rest
  | Some (status, key) :: rest =>
      if Z.eqb status NoFile then nrun! RemoveBlock key in clean_entries rest
      else clean_entries rest
  end.

(** [CleanFilestore]; [locked] is whether [fileStoreCleanupLock] is
    already taken (another clean-up is running). *)
Definition CleanFilestore (locked : bool) : M unit :=
  if locked then ret tt else
  nlet! r := request FilestoreVerify in
  match r with
  | AErr _ => ret tt
  | AEntries l => clean_entries l
  | _ => ret tt
  end.

(** [ResolveIPNS(key)]: [inl] the third ["/"]-segment of [Path], or [inr]
    an error. *)
Definition ResolveIPNS (key : string) : M (string + string) :=
  nlet! r := request (NameResolve key) in
  match r with
  | AErr e => ret (inr e)
  | _ =>
      let path := match r with AOk p => p | _ => "" end in
      match nth_error (GoStr.split sep path) 2 with
      | Some c => ret (inl c)
      | None => ret (inr ("Unexpected output in name/resolve: " ++ path))
      end
  end.

End Node.

(** ** Settings ([loadConfig] and [ProcessFlags], [configuration.go]) *)

(** The package variables the two functions set (durations in
    nanoseconds); their zero values are the Go defaults. *)
Record Settings := mkSettings {
  s_BasePath : string;
  s_EndPoint : string;
  s_DirKeys : list DirKey;
  s_SyncTime : Z;
  s_TimeoutTime : Z;
  s_Ignore : list string;
  s_DBPath : string;
  s_IgnoreHidden : bool
}.

Definition zero_settings : Settings := mkSettings "" "" [] 0 0 [] "" false.

(** The values of the command-line flags. *)
Record Flags := mkFlags {
  f_basepath : string;
  f_endpoint : string;
  f_dirs : list DirKey;
  f_sync : Z;
  f_timeout : Z;
  f_ignore : list string;
  f_db : string;
  f_ignorehidden : bool
}.

(** [ConfigFileStruct]. *)
Record ConfigFileStruct := mkConfigFile {
  c_BasePath : string;
  c_EndPoint : string;
  c_Dirs : list DirKey;
  c_Sync : string;
  c_Ignore : list string;
  c_DB : string;
  c_IgnoreHidden : bool;
  c_Timeout : string
}.

Definition default_basepath : string := "/ipfs-sync/".
Definition default_endpoint : string := "http://127.0.0.1:5001".
Definition default_sync : Z := 10000000000.
Definition default_timeout : Z := 30000000000.
Definition default_ignore : list string := ["kate-swp"; "swp"; "part"; "crdownload"].

Section Settings.

(** [time.ParseDuration]. *)
Variable ParseDuration : string -> option Z.

Local Open Scope string_scope.

(** [loadConfig] once the file is decoded ([None]: it could not be opened,
    written or decoded, and is skipped). *)
Definition loadConfig (file : option ConfigFileStruct) (g : Settings) : Settings :=
  match file with
  | None => g
  | Some c =>
      let bp := if String.eqb (c_BasePath c) "" then s_BasePath g else c_BasePath c in
      let ep := if String.eqb (c_EndPoint c) "" then s_EndPoint g else c_EndPoint c in
      let dk := match c_Dirs c with [] => s_DirKeys g | ds => ds end in
      let st := if String.eqb (c_Sync c) "" then s_SyncTime g
                else match ParseDuration (c_Sync c) with
                     | Some t => t
                     | None => s_SyncTime g
                     end in
      let tmo := if String.eqb (c_Timeout c) "" then s_TimeoutTime g
                else match ParseDuration (c_Timeout c) with
                     | Some t => t
                     | None => s_TimeoutTime g
                     end in
      let dbp := if String.eqb (c_DB c) "" then s_DBPath g else c_DB c in
      mkSettings bp ep dk st tmo (s_Ignore g) dbp (c_IgnoreHidden c)
  end.

(** The settings [ProcessFlags] leaves (the validations and the version
    request are in [ProcessFlags] above). *)
Definition settings_of (f : Flags) (file : option ConfigFileStruct) : Settings :=
  let g := loadConfig file zero_settings in
  let dk := match f_dirs f with [] => s_DirKeys g | ds => ds end in
  let bp := if negb (String.eqb (f_basepath f) default_basepath) || String.eqb (s_BasePath g) ""
            then f_basepath f else s_BasePath g in
  let ep := if negb (String.eqb (f_endpoint f) default_endpoint) || String.eqb (s_EndPoint g) ""
            then f_endpoint f else s_EndPoint g in
  let ig := match f_ignore f with
            | [] => match s_Ignore g with [] => default_ignore | l => l end
            | l => l
            end in
  let dbp := if String.eqb (f_db f) "" then s_DBPath g else f_db f in
  let st := if negb (Z.eqb (f_sync f) default_sync) || Z.eqb (s_SyncTime g) 0
            then f_sync f else s_SyncTime g in
  let tmo := if negb (Z.eqb (f_timeout f) default_timeout) || Z.eqb (s_TimeoutTime g) 0
            then f_timeout f else s_TimeoutTime g in
  let ih := if f_ignorehidden f then true else s_IgnoreHidden g in
  mkSettings bp ep dk st tmo ig dbp ih.

End Settings.

(** ** Reference descriptions used by the properties *)

(** A directory entry name as the file system has it: non-empty, no
    separator. *)
Definition entry_name_ok (nm : string) : bool :=
  negb (String.eqb nm "") &&
  forallb (fun c => negb (Ascii.eqb c sep)) (list_ascii_of_string nm).

Fixpoint wf_node (n : node) : bool :=
  match n with
  | NFile => true
  | NDir kids =>
      (fix go (ks : list (string * node)) : bool :=
         match ks with
         | [] => true
         | (nm, k) :: ks' => entry_name_ok nm && wf_node k && go ks'
         end) kids
  end.

Definition dot_name (nm : string) : bool :=
  match nm with String c _ => Ascii.eqb c "."%char | EmptyString => false end.

(** The files below [p] in walk order, leaving out (when [hide]) every
    entry whose name starts with ['.'] together with all it contains. *)
Fixpoint unhidden_files (hide : bool) (p : string) (n : node) : list string :=
  match n with
  | NFile => [p]
  | NDir kids =>
      (fix go (ks : list (string * node)) : list string :=
         match ks with
         | [] => []
         | (nm, k) :: ks' =>
             (if hide && dot_name nm then [] else unhidden_files hide (path_join p nm) k)
             ++ go ks'
         end) kids
  end.

(** ** Reference definitions for the further properties *)

(** A string without the separator [c]: a single path segment. *)
Definition no_sep (c : ascii) (s : string) : bool :=
  forallb (fun x => negb (Ascii.eqb x c)) (list_ascii_of_string s).

(** Induction on directory trees that reaches the entries of a directory. *)
Fixpoint node_ind' (P : node -> Prop) (HF : P NFile)
  (HD : forall kids, Forall (fun e => P (snd e)) kids -> P (NDir kids)) (n : node) : P n :=
  match n with
  | NFile => HF
  | NDir kids =>
      HD kids
        ((fix go (l : list (string * node)) : Forall (fun e => P (snd e)) l :=
            match l return Forall (fun e => P (snd e)) l with
            | [] => @List.Forall_nil _ _
            | (nm, k) :: l' => @List.Forall_cons _ (fun e => P (snd e)) (nm, k) l'
                                 (node_ind' P HF HD k) (go l')
            end) kids)
  end.

(** Every call a remote computation can emit satisfies [P], whatever the
    node answers. *)
Definition trace_ok {A} (P : Call -> Prop) (m : M A) : Prop :=
  forall rs c, In c (snd (m rs)) -> P c.

(** [Q] holds of every value a remote computation completes with. *)
Definition post_ok {A} (Q : A -> Prop) (m : M A) : Prop :=
  forall rs a rs' tr, m rs = (Done a, rs', tr) -> Q a.

(** An [add] request uploads the file [from]. *)
Definition adds_only (from : string) (c : Call) : Prop :=
  forall p nc oh, c = CAdd p nc oh -> p = from.

(** An [add] request of [AddDir] uploads a walked file whose suffix is not
    ignored and, when hidden files are ignored, whose name does not start
    with a dot. *)
Definition AddDir_add_ok (cfg : Config) (files : list string) (c : Call) : Prop :=
  forall p nc oh, c = CAdd p nc oh ->
    In p files /\ ignored_suffix cfg p = false /\
    (IgnoreHidden cfg = true ->
       exists l, GoStr.last_seg (GoStr.split sep p) = Some l /\ GoStr.first_is_dot l = Some false).

(** What a pass of the WatchDog may do to a directory: set its CID, and
    only to a non-empty one. *)
Definition cid_step (d d' : DirKey) : Prop :=
  d' = set_CID d (dk_CID d') /\ (dk_CID d' = dk_CID d \/ dk_CID d' <> ""%string).

(** An event name the filter of [watchDir] lets through. *)
Definition passes_filter (cfg : Config) (name : string) : Prop :=
  name <> ""%string /\ ignored_suffix cfg name = false /\
  (IgnoreHidden cfg = true -> hidden_check name = Some false).

(** An Estuary pin result with a present [Pin] whose CID differs from [old]. *)
Definition other_pin (old : string) (x : string * option string) : Prop :=
  exists c, snd x = Some c /\ c <> old.

(** The duration a config-file entry leaves in a variable that starts at
    zero: unset, or not parsed, is zero. *)
Definition config_duration (PD : string -> option Z) (s : string) : Z :=
  if String.eqb s "" then 0 else match PD s with Some t => t | None => 0 end.

(** The state a completed watcher run ends in ([s] otherwise). *)
Definition final_state (r : Outcome WState * list Resp * list Call) (s : WState) : WState :=
  match r with (Done a, _, _) => a | _ => s end.

Module NodeSpec.
Import Node.

(** The answers of a [block/rm] loop that meets the "pinned" errors [ps],
    each followed by the answer to its [pin/rm]. *)
Definition answers_of (ps : list (string * Ans)) : list Ans :=
  flat_map (fun p => [AErr (fst p); snd p]) ps.

Definition unpin_trace (cid : string) (ps : list (string * Ans)) : list Req :=
  flat_map (fun p => [BlockRm cid; PinRm (pinned_cid cid (fst p))]) ps.

(** Every request a node computation can make satisfies [P]. *)
Definition ntrace_ok {A} (P : Req -> Prop) (m : M A) : Prop :=
  forall rs q, In q (snd (m rs)) -> P q.

(** The requests of a block removal: [block/rm] of a block [ok] allows, and
    [pin/rm] of whatever the node names. *)
Definition block_req (ok : string -> Prop) (q : Req) : Prop :=
  (exists x, q = BlockRm x /\ ok x) \/ (exists y, q = PinRm y).

(** What [RemoveCID] may ask the node: the refs of [cid], the removal
    of [cid] or of a ref decoded from the first answer, and pin removals. *)
Definition RemoveCID_req (cid : string) (first : option Ans) (q : Req) : Prop :=
  q = Refs cid \/
  block_req (fun x => x = cid \/
                      exists items e, first = Some (ARefs items) /\ In (Some (e, x)) items) q.

End NodeSpec.

(** Inputs of the examples below: a scanned directory with a stored
    fingerprint, and a watched file. *)
Definition ex_cfg : Config := mkConfig "/ipfs-sync/" "" false ["swp"].

Definition ex_fs : FS :=
  mkFS (fun p => if String.eqb p "/d/x/a" then Some (mkStat false 5 7)
                 else if String.eqb p "/d/x/b" then Some (mkStat false 3 9) else None)
       (fun p => Some [1; 2])
       (fun p => if String.eqb p "/d/x/"
                 then NDir [("a", NFile); ("b", NFile); ("c.swp", NFile)] else NFile).

Definition ex_store : Store :=
  mkStore (<[ ts_key "/d/x/a" := cheap_fingerprint 5 7 ]> (<[ "/d/x/a" := [1; 2] ]> ∅)) ∅.

Definition ex_map : gmap string FileHash :=
  match HashDir ex_cfg ex_fs ex_store "/d/x/" false with Some m => m | None => ∅ end.

Definition ex_fh (f : string) : FileHash :=
  match ex_map !! f with Some fh => fh | None => mkFileHash f None None end.

Definition ex_w_cfg : Config := mkConfig "/b/" "" false ["swp"].

Definition ex_w_fs1 : FS :=
  mkFS (fun p => if String.eqb p "/r/f" then Some (mkStat false 4 9) else None)
       (fun p => if String.eqb p "/r/f" then Some [7] else None) (fun _ => NFile).

Definition ex_w_fs2 : FS := mkFS (fun _ => None) (fun _ => None) (fun _ => NFile).

Definition ex_w_s : WState := mkWState ∅ ∅ (Some (mkStore ∅ ∅)).

Definition ex_w_rs : list Resp := [ROk "h"; ROk ""; ROk ""; ROk ""; ROk ""].

(** * Properties *)

(** ** Fingerprint store *)

Lemma str_length_app (s t : string) :
  String.length (s ++ t)%string = (String.length s + String.length t)%nat.
Proof. induction s as [|c s IH]; simpl; [done|]. by rewrite IH. Qed.

Lemma ts_key_neq (p : string) : ts_key p <> p.
Proof.
  unfold ts_key. intros H. apply (f_equal String.length) in H.
  rewrite str_length_app in H. simpl in H. lia.
Qed.

Lemma delete_keys_absent (ks : list string) (s : Store) (j : string) :
  db s !! j = None -> db (delete_keys ks s) !! j = None.
Proof.
  revert s. induction ks as [|k ks IH]; intros s Hj; simpl; [done|].
  apply IH. simpl.
  destruct (decide (ts_key k = j)) as [->|Hne1]; [by rewrite lookup_delete_eq|].
  rewrite lookup_delete_ne by done.
  destruct (decide (k = j)) as [->|Hne2]; [by rewrite lookup_delete_eq|].
  by rewrite lookup_delete_ne.
Qed.

Lemma delete_keys_key (ks : list string) (s : Store) (k : string) :
  k ∈ ks ->
  db (delete_keys ks s) !! k = None /\ db (delete_keys ks s) !! ts_key k = None.
Proof.
  revert s. induction ks as [|k' ks IH]; intros s Hin; simpl.
  - by apply elem_of_nil in Hin.
  - apply elem_of_cons in Hin as [<-|Hin]; [|by apply IH].
    split; apply delete_keys_absent; simpl.
    + destruct (decide (ts_key k = k)) as [Heq|Hne].
      * by destruct (ts_key_neq k).
      * rewrite lookup_delete_ne by done. by rewrite lookup_delete_eq.
    + by rewrite lookup_delete_eq.
Qed.

Lemma delete_keys_other (ks : list string) (s : Store) (j : string) :
  j ∉ ks -> (forall k, k ∈ ks -> j <> ts_key k) ->
  db (delete_keys ks s) !! j = db s !! j.
Proof.
  revert s. induction ks as [|k ks IH]; intros s Hnin Hts; simpl; [done|].
  rewrite IH.
  - simpl. rewrite lookup_delete_ne.
    + rewrite lookup_delete_ne; [done|]. intros ->. apply Hnin. by left.
    + intros Heq. apply (Hts k); [by left | done].
  - intros Hin. apply Hnin. by right.
  - intros k' Hk'. apply Hts. by right.
Qed.

Lemma elem_of_prefix_keys (p k : string) (d : gmap string bytes) :
  k ∈ prefix_keys p d <-> String.prefix p k = true /\ is_Some (d !! k).
Proof.
  unfold prefix_keys. rewrite list_elem_of_filter.
  rewrite list_elem_of_In, in_map_iff. split.
  - intros [Hp [[k' x] [Hk Hin]]]. simpl in Hk. subst k'.
    split; [done|]. exists x. apply elem_of_map_to_list.
    by apply list_elem_of_In.
  - intros [Hp [x Hx]]. split; [done|]. exists (k, x). split; [done|].
    apply list_elem_of_In. by apply elem_of_map_to_list.
Qed.

(** The cheap fingerprint always has sixteen bytes. *)
Lemma cheap_fingerprint_length (size mtime : Z) :
  length (cheap_fingerprint size mtime) = 16%nat.
Proof. reflexivity. Qed.

(** C2 (amended): [Delete] removes, as a raw string prefix, every hash
    entry whose key starts with the path (so ["/a/bc"] goes with
    ["/a/b"]), and the timestamp entry of every key it removes; an entry
    that neither starts with the path nor is the timestamp entry of such a
    key is left as it was. *)
Theorem Delete_prefix_spec (s : Store) (fh : option FileHash) (path : string) :
  let p := delete_path fh path in
  exists s', Delete (Some s) fh path = Some s' /\
    (forall k, String.prefix p k = true -> db s' !! k = None) /\
    (forall k, String.prefix p k = true -> is_Some (db s !! k) ->
       db s' !! ts_key k = None) /\
    (forall j, String.prefix p j = false ->
       (forall k, String.prefix p k = true -> is_Some (db s !! k) -> j <> ts_key k) ->
       db s' !! j = db s !! j).
Proof.
  intros p. eexists. split; [reflexivity|]. fold p.
  split; [|split].
  - intros k Hk. destruct (db s !! k) as [x|] eqn:Hx.
    + apply delete_keys_key. apply elem_of_prefix_keys. split; [done|]. by exists x.
    + by apply delete_keys_absent.
  - intros k Hk Hs. apply delete_keys_key. by apply elem_of_prefix_keys.
  - intros j Hj Hts. apply delete_keys_other.
    + rewrite elem_of_prefix_keys. intros [Hj' _]. congruence.
    + intros k Hk. apply elem_of_prefix_keys in Hk as [Hk Hs]. by apply Hts.
Qed.

(** C2 (counterexample): with the store holding ["/a/bc"],
    [deletePrefix("/a/b")] removes it. *)
Lemma Delete_prefix_removes_sibling :
  let s := mkStore (<["/a/bc" := [1]]> (<["ts_/a/bc" := [2]]> ∅)) ∅ in
  exists s', Delete (Some s) None "/a/b" = Some s' /\
    db s !! "/a/bc" = Some [1] /\ db s' !! "/a/bc" = None.
Proof. eexists. split; [reflexivity|]. split; vm_compute; reflexivity. Qed.

(** C3 (amended): with a store open, [Update] writes the content-hash
    entry exactly when the fingerprint carries a content hash that differs
    from (or is missing in) the store, and the timestamp entry exactly when
    it differs from (or is missing in) the store; it returns [true] exactly
    when the timestamp entry changed and the content hash changed or is
    absent (cheap mode).  An immediately repeated [Update] of the same
    fingerprint writes nothing and returns [false]; without a store it
    returns [false]. *)
Theorem Update_put_spec (s : Store) (fh : FileHash) :
  let d := db s in
  let p := PathOnDisk fh in
  let ts := go_bytes (FakeHash fh) in
  let hash_changed :=
    match Hash fh with
    | None => true
    | Some h => negb (bool_decide (d !! p = Some h))
    end in
  let ts_changed := negb (bool_decide (d !! ts_key p = Some ts)) in
  let d1 :=
    match Hash fh with
    | Some h => if bool_decide (d !! p = Some h) then d else <[p := h]> d
    | None => d
    end in
  let d2 := if ts_changed then <[ts_key p := ts]> d1 else d1 in
  Update (Some s) fh = (hash_changed && ts_changed, Some (mkStore d2 (hashes s))) /\
  Update (Some (mkStore d2 (hashes s))) fh = (false, Some (mkStore d2 (hashes s))) /\
  Update None fh = (false, None).
Proof.
  simpl. destruct s as [d hs]. destruct fh as [p oh t]; simpl.
  assert (N1 : ts_key p <> p) by apply ts_key_neq.
  assert (N2 : p <> ts_key p) by (intros H; by apply N1).
  destruct oh as [h|];
  destruct (d !! p) as [v|] eqn:Hv; try destruct (decide (v = h)) as [->|Hvh];
  destruct (d !! ts_key p) as [w|] eqn:Hw;
  try destruct (decide (w = go_bytes t)) as [->|Hwt];
  repeat (first [ rewrite Hv | rewrite Hw | rewrite lookup_insert_eq
                | rewrite lookup_insert_ne by done
                | rewrite decide_True by done | rewrite decide_False by congruence
                | rewrite bool_decide_true by done
                | rewrite bool_decide_false by congruence
                | progress simpl ]); try done.
Qed.

(** C3 (counterexample): the stored content hash equals the new one but
    the timestamp differs; [Update] writes the new timestamp and still
    returns [false]. *)
Lemma Update_ts_only_change_reported_unchanged :
  let s := mkStore (<["p" := [1]]> (<["ts_p" := [2]]> ∅)) ∅ in
  let fh := mkFileHash "p" (Some [1]) (Some [3]) in
  fst (Update (Some s) fh) = false /\
  db s !! "ts_p" = Some [2] /\
  option_map (fun s' => db s' !! "ts_p") (snd (Update (Some s) fh)) = Some (Some [3]).
Proof. vm_compute. repeat split. Qed.

(** C9 (code bug): a file of size 0 and one of size 16777216 (2^24) with
    the same modification time get byte-equal cheap fingerprints: the
    encoding lists the shifts 0, 8, 16, 32, ... and drops bits 24 to 31. *)
Theorem GetHashValue_cheap_size_collision :
  let fs := mkFS (fun p => if String.eqb p "a" then Some (mkStat false 0 1700000000)
                           else if String.eqb p "b" then Some (mkStat false 16777216 1700000000)
                           else None)
                 (fun _ => None) (fun _ => NFile) in
  GetHashValue fs "a" true = GetHashValue fs "b" true /\
  GetHashValue fs "a" true <> None /\
  option_map st_size (fs_stat fs "a") <> option_map st_size (fs_stat fs "b").
Proof. vm_compute. split; [reflexivity|]. split; congruence. Qed.

(** ** Fault recovery *)

Lemma length_concat_repeat {A} (l : list A) (n : nat) :
  length (concat (repeat l n)) = (n * length l)%nat.
Proof.
  induction n as [|n IH]; simpl; [done|]. rewrite length_app, IH. lia.
Qed.

Section Retries.

Variable cfg : Config.

(** [n] recognised errors on [pin/update], then success. *)
Lemma UpdatePin_rounds_retries (from to : string) (nocopy : bool) (e : string)
  (rest : list Resp) :
  bad_block_text e = true ->
  forall n k, (n < k)%nat ->
  UpdatePin_rounds k from to nocopy (repeat (RErr e) n ++ ROk "" :: rest) =
  (Done tt, rest,
   concat (repeat [CPinUpdate from to; CCleanFilestore] n) ++ [CPinUpdate from to]).
Proof.
  intros He n. induction n as [|n IH]; intros k Hk; destruct k as [|k]; try lia.
  - reflexivity.
  - simpl. unfold bind, HandleBadBlockError. simpl. rewrite He. simpl.
    rewrite (IH k) by lia. reflexivity.
Qed.

(** [n] recognised errors on [files/cp], then success. *)
Lemma AddFile_rounds_retries (from to : string) (nocopy makedir overwrite : bool)
  (h h' e : string) (rest : list Resp) :
  bad_block_text e = true -> from <> "" ->
  let side_r := (if makedir then [ROk ""] else []) ++ (if overwrite then [ROk ""] else []) in
  let side_c := (if makedir then [CMkdir (BasePath cfg ++ parent_of to)] else [])
                ++ (if overwrite then [CRm (BasePath cfg ++ to)] else []) in
  let cp := CCp ("/ipfs/" ++ h) (BasePath cfg ++ to) in
  forall n k, (n < k)%nat ->
  AddFile_rounds cfg k from to nocopy makedir overwrite
    (concat (repeat (ROk h :: side_r ++ [RErr e; ROk h']) n)
     ++ (ROk h :: side_r ++ [ROk ""]) ++ rest) =
  (Done (h, match n with O => None | S _ => Some e end), rest,
   concat (repeat (CAdd from nocopy false :: side_c ++ [cp; CAdd from nocopy true; CRemoveCID h']) n)
   ++ (CAdd from nocopy false :: side_c ++ [cp])).
Proof.
  intros He Hf side_r side_c cp n.
  assert (Hf' : String.eqb from "" = false) by (by apply String.eqb_neq).
  induction n as [|n IH]; intros k Hk; destruct k as [|k]; try lia.
  - subst side_r side_c cp. destruct makedir, overwrite; reflexivity.
  - specialize (IH k ltac:(lia)). subst side_r side_c cp.
    destruct makedir, overwrite; simpl in IH |- *;
      unfold bind, HandleBadBlockError in *; simpl in IH |- *;
      rewrite He, Hf'; simpl; rewrite ?IH; simpl;
      rewrite <- ?app_assoc; reflexivity.
Qed.

End Retries.

(** C4 (amended): each recognised dangling-reference error on [files/cp]
    (in [AddFile]) or on [pin/update] (in [UpdatePin]) triggers one
    recovery and one recursive retry of the whole operation, and a
    recognised error on that retry triggers another recovery and retry,
    with no bound: [n] consecutive recognised errors followed by a success
    give [n] recoveries and [n + 1] attempts.  [AddFile] reports the error
    of its first attempt. *)
Theorem fault_recovery_retries (cfg : Config) (from to h h' e : string)
  (nocopy makedir overwrite : bool) (n : nat) (rest : list Resp) :
  bad_block_text e = true -> from <> "" ->
  let side_r := (if makedir then [ROk ""] else []) ++ (if overwrite then [ROk ""] else []) in
  let side_c := (if makedir then [CMkdir (BasePath cfg ++ parent_of to)] else [])
                ++ (if overwrite then [CRm (BasePath cfg ++ to)] else []) in
  let cp := CCp ("/ipfs/" ++ h) (BasePath cfg ++ to) in
  AddFile cfg from to nocopy makedir overwrite
    (concat (repeat (ROk h :: side_r ++ [RErr e; ROk h']) n)
     ++ (ROk h :: side_r ++ [ROk ""]) ++ rest) =
  (Done (h, match n with O => None | S _ => Some e end), rest,
   concat (repeat (CAdd from nocopy false :: side_c ++ [cp; CAdd from nocopy true; CRemoveCID h']) n)
   ++ (CAdd from nocopy false :: side_c ++ [cp])) /\
  UpdatePin from to nocopy (repeat (RErr e) n ++ ROk "" :: rest) =
  (Done tt, rest,
   concat (repeat [CPinUpdate from to; CCleanFilestore] n) ++ [CPinUpdate from to]).
Proof.
  intros He Hf side_r side_c cp. split.
  - unfold AddFile, bind, rounds. cbv beta iota.
    rewrite (AddFile_rounds_retries cfg from to nocopy makedir overwrite h h' e rest He Hf n).
    + by rewrite app_nil_l.
    + rewrite length_app, length_concat_repeat. simpl. lia.
  - unfold UpdatePin, bind, rounds. cbv beta iota.
    rewrite (UpdatePin_rounds_retries from to nocopy e rest He n).
    + by rewrite app_nil_l.
    + rewrite length_app, repeat_length. lia.
Qed.

Lemma fault_recovery_retries_witness :
  bad_block_text "failed to get block QmX" = true /\ "/home/u/d/f" <> "" /\
  AddFile (mkConfig "/ipfs-sync/" "" false []) "/home/u/d/f" "d/f" false true true
    [ROk "h"; ROk ""; ROk ""; RErr "failed to get block QmX"; ROk "h2";
     ROk "h"; ROk ""; ROk ""; RErr "failed to get block QmX"; ROk "h2";
     ROk "h"; ROk ""; ROk ""; ROk ""] =
  (Done ("h", Some "failed to get block QmX"), [],
   [CAdd "/home/u/d/f" false false; CMkdir "/ipfs-sync/d"; CRm "/ipfs-sync/d/f";
    CCp "/ipfs/h" "/ipfs-sync/d/f"; CAdd "/home/u/d/f" false true; CRemoveCID "h2";
    CAdd "/home/u/d/f" false false; CMkdir "/ipfs-sync/d"; CRm "/ipfs-sync/d/f";
    CCp "/ipfs/h" "/ipfs-sync/d/f"; CAdd "/home/u/d/f" false true; CRemoveCID "h2";
    CAdd "/home/u/d/f" false false; CMkdir "/ipfs-sync/d"; CRm "/ipfs-sync/d/f";
    CCp "/ipfs/h" "/ipfs-sync/d/f"]).
Proof.
  assert (He : bad_block_text "failed to get block QmX" = true) by reflexivity.
  assert (Hf : "/home/u/d/f" <> "") by discriminate.
  split; [exact He|]. split; [exact Hf|].
  exact (proj1 (fault_recovery_retries (mkConfig "/ipfs-sync/" "" false [])
           "/home/u/d/f" "d/f" "h" "h2" "failed to get block QmX" false true true 2 []
           He Hf)).
Defined.

(** C4 (counterexample): the retried [files/cp] fails again with the same
    recognised error; a second recovery ([CRemoveCID]) and a third
    attempt follow. *)
Lemma AddFile_second_recovery :
  AddFile (mkConfig "/ipfs-sync/" "" false []) "/f" "d/f" false false false
    [ROk "h"; RErr "failed to get block x"; ROk "h2";
     ROk "h"; RErr "failed to get block x"; ROk "h3";
     ROk "h"; ROk ""] =
  (Done ("h", Some "failed to get block x"), [],
   [CAdd "/f" false false; CCp "/ipfs/h" "/ipfs-sync/d/f";
    CAdd "/f" false true; CRemoveCID "h2";
    CAdd "/f" false false; CCp "/ipfs/h" "/ipfs-sync/d/f";
    CAdd "/f" false true; CRemoveCID "h3";
    CAdd "/f" false false; CCp "/ipfs/h" "/ipfs-sync/d/f"]).
Proof. reflexivity. Qed.

(** ** Sync actuator *)

(** C5 (amended): the watcher's [addFile] uploads the file's bytes first;
    then, only when the file is the first one placed under its parent
    directory during the watcher's lifetime, it creates the parent with
    [files/mkdir?parents=true]; then it removes the existing entry exactly
    when force-overwrite is set; then it links the content id at the
    mapped path.  When a fingerprint store is configured the fingerprint is
    then recomputed and stored. *)
Theorem addFile_order (cfg : Config) (fs : FS) (w : Watch) (fname : string)
  (overwrite : bool) (s : WState) (h : string) (oks : list string) (rest : list Resp) :
  let parentDir := GoStr.join sep (removelast (GoStr.split sep fname)) in
  let first := negb (bool_decide (parentDir ∈ localDirs s)) in
  let to := (dirName w ++ "/" ++ GoStr.drop (String.length (w_dir w)) fname)%string in
  length oks = ((if first then 1 else 0) + (if overwrite then 1 else 0) + 1)%nat ->
  exists s',
    addFile cfg fs w fname overwrite s (ROk h :: map ROk oks ++ rest) =
      (Done s', rest,
       [CAdd fname (w_nocopy w) false]
       ++ (if first then [CMkdir (BasePath cfg ++ parent_of to)] else [])
       ++ (if overwrite then [CRm (BasePath cfg ++ to)] else [])
       ++ [CCp ("/ipfs/" ++ h) (BasePath cfg ++ to)]) /\
    parentDir ∈ localDirs s' /\
    store s' = store_put fs (store s) fname (w_dontHash w).
Proof.
  intros parentDir first to Hlen. unfold addFile. fold parentDir. fold to.
  unfold first in Hlen |- *.
  destruct (bool_decide (parentDir ∈ localDirs s)) eqn:Hin; simpl in Hlen |- *;
  destruct overwrite; simpl in Hlen;
  (destruct oks as [|a [|b [|c [|? ?]]]]; simpl in Hlen; try lia);
  (eexists; split; [reflexivity|]); simpl; split; try done;
  try (apply bool_decide_eq_true in Hin; done); set_solver.
Qed.

(** C5 (counterexample): a first file under its parent with
    force-overwrite: the upload ([CAdd]) comes before the directory
    creation. *)
Lemma addFile_uploads_before_mkdir :
  let cfg := mkConfig "/ipfs-sync/" "" false [] in
  let fs := mkFS (fun _ => None) (fun _ => None) (fun _ => NFile) in
  let w := mkWatch "/home/u/docs/" false true in
  addFile cfg fs w "/home/u/docs/x/f.txt" true (mkWState ∅ ∅ None)
    [ROk "h"; ROk ""; ROk ""; ROk ""] =
  (Done (mkWState {["/home/u/docs/x"]} ∅ None), [],
   [CAdd "/home/u/docs/x/f.txt" false false; CMkdir "/ipfs-sync/docs/x";
    CRm "/ipfs-sync/docs/x/f.txt"; CCp "/ipfs/h" "/ipfs-sync/docs/x/f.txt"]).
Proof. vm_compute. reflexivity. Qed.

Lemma addFile_order_witness :
  length [""; ""; ""] = 3%nat /\
  exists s',
    addFile (mkConfig "/ipfs-sync/" "" false []) (mkFS (fun _ => None) (fun _ => None) (fun _ => NFile))
      (mkWatch "/home/u/docs/" false true) "/home/u/docs/x/g.txt" true (mkWState ∅ ∅ None)
      [ROk "h"; ROk ""; ROk ""; ROk ""] =
    (Done s', [],
     [CAdd "/home/u/docs/x/g.txt" false false; CMkdir "/ipfs-sync/docs/x";
      CRm "/ipfs-sync/docs/x/g.txt"; CCp "/ipfs/h" "/ipfs-sync/docs/x/g.txt"]).
Proof.
  split; [reflexivity|].
  destruct (addFile_order (mkConfig "/ipfs-sync/" "" false [])
              (mkFS (fun _ => None) (fun _ => None) (fun _ => NFile))
              (mkWatch "/home/u/docs/" false true) "/home/u/docs/x/g.txt" true
              (mkWState (∅ : gset string) (∅ : gset string) None) "h" [""; ""; ""] [])
    as [s' [H _]].
  - vm_compute. reflexivity.
  - exists s'. vm_compute in H. exact H.
Defined.

(** C6 (code_bug): with [IgnoreHidden] on and the watch root ["root/"], a
    write event for the hidden file ["root/cache/.data"] is dropped by the
    event filter, but the create event of its new parent directory
    ["root/cache"] walks it with [addDir], which applies no hidden check:
    the hidden file is uploaded and linked like the visible one. *)
Theorem watcher_create_dir_syncs_hidden_file :
  let cfg := mkConfig "/b/" "" true [] in
  let fs := mkFS (fun p => if String.eqb p "root/cache" then Some (mkStat true 0 0) else None)
                 (fun _ => None)
                 (fun p => if String.eqb p "root/cache"
                           then NDir [(".data", NFile); ("ok", NFile)] else NFile) in
  let w := mkWatch "root/" false true in
  let rs := [ROk "h1"; ROk ""; ROk ""; ROk "h2"; ROk ""] in
  handle_event cfg fs w (mkEvent "root/cache/.data" OpWrite) (mkWState ∅ ∅ None) rs
    = (Done (mkWState ∅ ∅ None), rs, []) /\
  handle_event cfg fs w (mkEvent "root/cache" OpCreate) (mkWState ∅ ∅ None) rs
    = (Done (mkWState {["root/cache"]} {["root/cache"]} None), [],
       [CAdd "root/cache/.data" false false; CMkdir "/b/root/cache";
        CCp "/ipfs/h1" "/b/root/cache/.data";
        CAdd "root/cache/ok" false false; CCp "/ipfs/h2" "/b/root/cache/ok"]).
Proof. split; vm_compute; reflexivity. Qed.

(** C7 (amended): for a remove or rename event whose non-empty name passes
    the watcher's filter (not hidden when [IgnoreHidden] is on, suffix not
    in [Ignore]), the path is stat'd: if it still exists nothing happens
    (state unchanged, no remote call); if it is gone, its watch and its
    [localDirs] entry are dropped, exactly one remote removal is issued at
    the mapped path, and the store deletes the records selected by
    [Delete] (by raw key prefix, see C2) for the path. *)
Theorem handle_remove_spec (cfg : Config) (fs : FS) (w : Watch) (name : string)
  (op : Op) (s : WState) (rs : list Resp) :
  name <> ""%string ->
  (IgnoreHidden cfg = true -> hidden_check name = Some false) ->
  ignored_suffix cfg name = false ->
  op = OpRemove \/ op = OpRename ->
  (fs_stat fs name <> None ->
     handle_event cfg fs w (mkEvent name op) s rs = (Done s, rs, [])) /\
  (fs_stat fs name = None ->
     handle_event cfg fs w (mkEvent name op) s rs =
       (Done (mkWState (localDirs s ∖ {[name]}) (watches s ∖ {[name]})
                (match store s with
                 | None => None
                 | Some st => Delete (Some st) (hashes st !! name) name
                 end)),
        tl rs,
        [CRm (BasePath cfg ++ dirName w ++ "/" ++ GoStr.drop (String.length (w_dir w)) name)])).
Proof.
  intros Hne Hhid Hsuf Hop.
  assert (Hpre : forall A (k : bool -> M A),
             bind (if IgnoreHidden cfg then
                     match hidden_check name with
                     | None => abort "index out of range"
                     | Some b => ret b
                     end
                   else ret false) k rs = k false rs).
  { intros A k. destruct (IgnoreHidden cfg); [rewrite Hhid by done|]; unfold bind, ret; simpl;
      destruct (k false rs) as [[? ?] ?]; done. }
  unfold handle_event. simpl. apply String.eqb_neq in Hne. rewrite Hne.
  rewrite Hpre. rewrite Hsuf.
  split.
  - intros Hst. destruct (fs_stat fs name); [|done].
    destruct Hop as [-> | ->]; done.
  - intros Hst. rewrite Hst.
    destruct Hop as [-> | ->]; unfold bind, RemoveFile, request, ret;
      destruct rs; simpl; done.
Qed.

Lemma handle_remove_spec_witness :
  ("root/a.txt" <> ""%string /\
   (IgnoreHidden (mkConfig "/b/" "" true ["swp"]) = true -> hidden_check "root/a.txt" = Some false) /\
   ignored_suffix (mkConfig "/b/" "" true ["swp"]) "root/a.txt" = false /\
   (OpRemove = OpRemove \/ OpRemove = OpRename)) /\
  handle_event (mkConfig "/b/" "" true ["swp"]) (mkFS (fun _ => None) (fun _ => None) (fun _ => NFile))
    (mkWatch "root/" false true) (mkEvent "root/a.txt" OpRemove) (mkWState ∅ ∅ None) [ROk ""] =
  (Done (mkWState (∅ ∖ {["root/a.txt"]}) (∅ ∖ {["root/a.txt"]}) None), [],
   [CRm "/b/root/a.txt"]).
Proof.
  split; [split; [discriminate|split; [reflexivity|split; [reflexivity|left; reflexivity]]]|].
  apply (handle_remove_spec (mkConfig "/b/" "" true ["swp"])
           (mkFS (fun _ => None) (fun _ => None) (fun _ => NFile))
           (mkWatch "root/" false true) "root/a.txt" OpRemove (mkWState ∅ ∅ None) [ROk ""]).
  - discriminate.
  - intros _. vm_compute. reflexivity.
  - vm_compute. reflexivity.
  - left. reflexivity.
  - reflexivity.
Defined.

(** C7 (counterexample): with [Ignore = ["swp"]], a remove event for the
    vanished file ["root/notes.swp"] whose fingerprint is stored is dropped
    by the suffix filter before any stat: no remote removal is issued and
    the stored record is kept. *)
Lemma handle_remove_ignored_suffix :
  let st := mkStore (<["root/notes.swp" := [1]]> ∅)
                    (<["root/notes.swp" := mkFileHash "root/notes.swp" (Some [1]) None]> ∅) in
  handle_event (mkConfig "/b/" "" false ["swp"]) (mkFS (fun _ => None) (fun _ => None) (fun _ => NFile))
    (mkWatch "root/" false true) (mkEvent "root/notes.swp" OpRemove)
    (mkWState ∅ {["root/notes.swp"]} (Some st)) [ROk ""] =
  (Done (mkWState ∅ {["root/notes.swp"]} (Some st)), [ROk ""], []).
Proof. vm_compute. reflexivity. Qed.

(** ** Steady-state loop *)

(** C10: when reading the mount's snapshot id yields the empty string (as
    [GetFileCID] does on any error), the pass makes no further call for the
    directory and keeps its last-known id. *)
Theorem watchdog_step_empty_cid (cfg : Config) (dk : DirKey) (rs rs' : list Resp)
  (tr : list Call) :
  GetFileCID cfg (dk_MFSPath dk) rs = (Done ""%string, rs', tr) ->
  watchdog_step cfg dk rs = (Done dk, rs', tr).
Proof.
  intros H. unfold watchdog_step, bind. rewrite H. simpl. unfold ret.
  by rewrite app_nil_r.
Qed.

Lemma watchdog_step_empty_cid_witness :
  GetFileCID (mkConfig "/b/" "key" false []) "root" [RErr "no such file"] =
    (Done ""%string, [], [CStat "/b/root"]) /\
  watchdog_step (mkConfig "/b/" "key" false [])
    (mkDirKey "id" "root/" "root" "X" false false true true) [RErr "no such file"] =
    (Done (mkDirKey "id" "root/" "root" "X" false false true true), [], [CStat "/b/root"]).
Proof.
  split; [reflexivity|].
  apply (watchdog_step_empty_cid (mkConfig "/b/" "key" false [])
           (mkDirKey "id" "root/" "root" "X" false false true true)
           [RErr "no such file"] [] [CStat "/b/root"]).
  reflexivity.
Defined.

(** C1 (code_bug): on drift from ["X"] to ["Y"] a pin-enabled directory
    gets one pin update and one publish and its last-known id becomes
    ["Y"] when Estuary is off; with Estuary on, a pin list whose result
    carries no [pin] object makes [UpdatePinEstuary] dereference a nil
    pointer: the pass aborts after the pin update, before any publish, and
    the last-known id is never advanced. *)
Theorem watchdog_step_estuary_nil_pin :
  let cfg := mkConfig "/b/" "key" false [] in
  watchdog_step cfg (mkDirKey "id" "root/" "root" "X" false false true false)
    [ROk "Y"; ROk ""; ROk ""] =
    (Done (mkDirKey "id" "root/" "root" "Y" false false true false), [],
     [CStat "/b/root"; CPinUpdate "X" "Y"; CPublish "Y" (KeySpace ++ "id")]) /\
  watchdog_step cfg (mkDirKey "id" "root/" "root" "X" false false true true)
    [ROk "Y"; ROk ""; RPins [("r1", None)]; ROk ""] =
    (Abort "invalid memory address or nil pointer dereference", [ROk ""],
     [CStat "/b/root"; CPinUpdate "X" "Y"; CEstGet "X"]).
Proof. split; vm_compute; reflexivity. Qed.

(** ** Startup *)

(** Each startup validation failure of [ProcessFlags] is fatal: an empty
    directory list, a store path whose database fails to open, and a
    failed [version] request to the node. *)
Lemma ProcessFlags_startup_fatal (dirKeys : list DirKey) (dbPath : string)
  (dbOpen : option (gmap string bytes)) (rs : list Resp) :
  (dirKeys = [] ->
     exists m, ProcessFlags false false dirKeys dbPath dbOpen rs = (Abort m, rs, [])) /\
  (dirKeys <> [] -> existsb (fun dk => String.eqb (dk_Dir dk) "") dirKeys = false ->
     dbPath <> ""%string -> dbOpen = None ->
     exists m, ProcessFlags false false dirKeys dbPath dbOpen rs = (Abort m, rs, [])) /\
  (forall e rs0, dirKeys <> [] -> existsb (fun dk => String.eqb (dk_Dir dk) "") dirKeys = false ->
     (dbPath = ""%string \/ dbOpen <> None) -> rs = RErr e :: rs0 ->
     exists m, ProcessFlags false false dirKeys dbPath dbOpen rs = (Abort m, rs0, [CVersion])).
Proof.
  split; [|split].
  - intros ->. eexists. reflexivity.
  - intros Hne Hdir Hp Ho. destruct dirKeys as [|d ds]; [done|].
    unfold ProcessFlags. rewrite Hdir. apply String.eqb_neq in Hp. rewrite Hp, Ho.
    eexists. reflexivity.
  - intros e rs0 Hne Hdir Hdb ->. destruct dirKeys as [|d ds]; [done|].
    unfold ProcessFlags. rewrite Hdir.
    destruct (String.eqb dbPath "") eqn:Hp.
    + eexists. reflexivity.
    + destruct Hdb as [Hdb|Hdb]; [apply String.eqb_eq in Hdb; congruence|].
      destruct dbOpen; [|done]. eexists. reflexivity.
Qed.

(** C8 (code_bug): the steady-state loop is not abort-free.  Two passes
    over one Estuary-enabled directory: the first sees no drift, the second
    sees drift and a malformed Estuary pin list, and the loop (hence the
    process) aborts. *)
Theorem watchdog_loop_aborts_on_malformed_estuary :
  watchdog_loop (mkConfig "/b/" "key" false []) 2
    [mkDirKey "id" "root/" "root" "X" false false false true]
    [ROk "X"; ROk "Y"; RPins [("r1", None)]] =
  (Abort "invalid memory address or nil pointer dereference", [],
   [CStat "/b/root"; CStat "/b/root"; CEstGet "X"]).
Proof. vm_compute. reflexivity. Qed.

(** * Further properties *)

(** ** [findInStringSlice] *)

Lemma find_from_spec (k : Z) (slice : list string) (val : string) :
  0 <= k ->
  (~ In val slice /\ find_from k slice val = -1) \/
  (exists i, find_from k slice val = k + Z.of_nat i /\ nth_error slice i = Some val /\
             forall j, (j < i)%nat -> nth_error slice j <> Some val).
Proof.
  revert k. induction slice as [|item rest IH]; intros k Hk; simpl.
  - left. split; [tauto | done].
  - destruct (String.eqb_spec item val) as [->|Hne].
    + right. exists 0%nat. split; [lia|]. split; [done|]. intros j Hj. lia.
    + destruct (IH (k + 1) ltac:(lia)) as [[Hn Hf]|[i [Hf [Hi Hj]]]].
      * left. split; [|done]. intros [H|H]; [congruence | tauto].
      * right. exists (S i). split; [rewrite Hf; lia|]. split; [done|].
        intros [|j] Hji; simpl; [congruence|]. apply Hj. lia.
Qed.

(** X1: [findInStringSlice] answers [-1] exactly when the value is absent,
    and otherwise the index of its first occurrence; so [> -1] is membership. *)
Theorem findInStringSlice_spec (slice : list string) (val : string) :
  ((~ In val slice /\ findInStringSlice slice val = -1) \/
   (exists i, findInStringSlice slice val = Z.of_nat i /\ nth_error slice i = Some val /\
              forall j, (j < i)%nat -> nth_error slice j <> Some val)) /\
  ((-1 < findInStringSlice slice val) <-> In val slice).
Proof.
  unfold findInStringSlice.
  destruct (find_from_spec 0 slice val ltac:(lia)) as [[Hn Hf]|[i [Hf [Hi Hj]]]].
  - split; [left; done|]. rewrite Hf. split; [lia | tauto].
  - split; [right; exists i; split; [lia|]; done|]. split; [intros _|lia].
    by eapply nth_error_In.
Qed.

(** ** Paths as the code splits them *)

Lemma split_not_nil (c : ascii) (s : string) : GoStr.split c s <> [].
Proof. destruct s; simpl; [done|]. destruct (Ascii.eqb _ c); [done|]. by destruct (GoStr.split c s). Qed.

Lemma split_app_sep (c : ascii) (a b : string) :
  GoStr.split c (a ++ String c b)%string = GoStr.split c a ++ GoStr.split c b.
Proof.
  induction a as [|x a IH]; simpl.
  - by rewrite Ascii.eqb_refl.
  - rewrite IH. destruct (Ascii.eqb x c); [done|].
    pose proof (split_not_nil c a) as Hn.
    destruct (GoStr.split c a) as [|h t]; [done|]. done.
Qed.

Lemma split_no_sep (c : ascii) (s : string) :
  no_sep c s = true -> GoStr.split c s = [s].
Proof.
  unfold no_sep. induction s as [|x s IH]; simpl; [done|].
  intros H. apply andb_prop in H as [Hx Hs]. apply negb_true_iff in Hx.
  rewrite Hx, IH by done. done.
Qed.

Lemma join_cons_char (c x : ascii) (h : string) (t : list string) :
  GoStr.join c (String x h :: t) = String x (GoStr.join c (h :: t)).
Proof. destruct t; reflexivity. Qed.

Lemma join_split (c : ascii) (s : string) : GoStr.join c (GoStr.split c s) = s.
Proof.
  induction s as [|x s IH]; simpl; [done|].
  destruct (Ascii.eqb_spec x c) as [->|Hne].
  - pose proof (split_not_nil c s) as Hn.
    destruct (GoStr.split c s) as [|h t] eqn:E; [done|]. simpl. by rewrite <- IH.
  - pose proof (split_not_nil c s) as Hn.
    destruct (GoStr.split c s) as [|h t] eqn:E; [done|].
    rewrite join_cons_char. by rewrite IH.
Qed.

Lemma last_seg_app (l : list string) (x : string) :
  GoStr.last_seg (l ++ [x]) = Some x.
Proof. induction l as [|a l IH]; [done|]. simpl. rewrite IH. by destruct l. Qed.

(** X2: the parent directory [AddFile] creates for the destination [d/f],
    with [f] a single segment, is [d]. *)
Lemma parent_of_app (d f : string) :
  no_sep sep f = true -> parent_of (d ++ "/" ++ f)%string = d.
Proof.
  intros Hf. unfold parent_of. change ("/" ++ f)%string with (String sep f).
  rewrite split_app_sep, (split_no_sep _ f Hf), removelast_last. apply join_split.
Qed.

Lemma substring_0_length (s : string) : substring 0 (String.length s) s = s.
Proof. induction s as [|x s IH]; simpl; [done|]. by rewrite IH. Qed.

Lemma substring_split (s : string) (n : nat) :
  (n <= String.length s)%nat ->
  s = (substring 0 n s ++ substring n (String.length s - n) s)%string.
Proof.
  revert n. induction s as [|x s IH]; intros n Hn; simpl in *.
  - destruct n; [done|lia].
  - destruct n as [|n]; simpl.
    + by rewrite substring_0_length.
    + change (String x s = String x (substring 0 n s ++ substring n (String.length s - n) s))%string.
      f_equal. apply IH. lia.
Qed.

Lemma has_suffix_sep (p : string) :
  GoStr.has_suffix "/" p = true -> exists a, p = (a ++ "/")%string.
Proof.
  unfold GoStr.has_suffix, GoStr.drop. intros H.
  apply andb_prop in H as [Hl He]. apply Nat.leb_le in Hl. apply String.eqb_eq in He.
  simpl in Hl, He.
  exists (substring 0 (String.length p - 1) p).
  rewrite <- He. apply substring_split. lia.
Qed.

Lemma str_app_assoc (a b c : string) : ((a ++ b) ++ c)%string = (a ++ (b ++ c))%string.
Proof.
  induction a as [|x a IH]; [done|].
  change (String x ((a ++ b) ++ c) = String x (a ++ (b ++ c)))%string. by rewrite IH.
Qed.

Lemma last_seg_path_join (p nm : string) :
  no_sep sep nm = true -> GoStr.last_seg (GoStr.split sep (path_join p nm)) = Some nm.
Proof.
  intros Hn. unfold path_join. destruct (GoStr.has_suffix "/" p) eqn:Hs.
  - apply has_suffix_sep in Hs as [a ->].
    rewrite str_app_assoc. change ("/" ++ nm)%string with (String sep nm).
    rewrite split_app_sep, (split_no_sep _ _ Hn). apply last_seg_app.
  - change ("/" ++ nm)%string with (String sep nm).
    rewrite split_app_sep, (split_no_sep _ _ Hn). apply last_seg_app.
Qed.

(** ** Directory walks *)

Lemma entry_name_ok_iff (nm : string) :
  entry_name_ok nm = true -> nm <> ""%string /\ no_sep sep nm = true.
Proof.
  unfold entry_name_ok, no_sep. intros H. apply andb_prop in H as [H1 H2].
  split; [|done]. intros ->. done.
Qed.

Lemma first_is_dot_dot_name (nm : string) :
  nm <> ""%string -> GoStr.first_is_dot nm = Some (dot_name nm).
Proof. destruct nm; [done|]. reflexivity. Qed.

Lemma walk_unhidden (cfg : Config) (n : node) :
  wf_node n = true ->
  forall q,
  (IgnoreHidden cfg = true ->
     exists l, GoStr.last_seg (GoStr.split sep q) = Some l /\ dot_name l = false /\
               (n = NFile -> l <> ""%string)) ->
  walk (filePathWalkDir_visit cfg) q n = Some (unhidden_files (IgnoreHidden cfg) q n).
Proof.
  induction n as [|kids IH] using node_ind'; intros Hwf q Hq.
  - simpl. unfold filePathWalkDir_visit. destruct (IgnoreHidden cfg) eqn:Hh; [|done].
    destruct (Hq eq_refl) as [l [Hl [Hd Hne]]]. rewrite Hl.
    rewrite first_is_dot_dot_name by auto. by rewrite Hd.
  - assert (Hv : filePathWalkDir_visit cfg q true = VCont []).
    { unfold filePathWalkDir_visit. destruct (IgnoreHidden cfg) eqn:Hh; [|done].
      destruct (Hq eq_refl) as [l [Hl [Hd _]]]. rewrite Hl.
      destruct l as [|c l']; [done|]. simpl in Hd. by rewrite Hd. }
    cbn [walk]. rewrite Hv. simpl in Hwf. clear Hq.
    induction kids as [|[nm k] ks IHk]; [done|].
    apply andb_prop in Hwf as [Hwf Hks]. apply andb_prop in Hwf as [Hnm Hk].
    inversion IH as [|? ? IHh IHt]; subst. simpl in IHh.
    apply entry_name_ok_iff in Hnm as [Hne Hns].
    assert (Hw : walk (filePathWalkDir_visit cfg) (path_join q nm) k =
                 Some (if IgnoreHidden cfg && dot_name nm then []
                       else unhidden_files (IgnoreHidden cfg) (path_join q nm) k)).
    { destruct (IgnoreHidden cfg && dot_name nm) eqn:Hhd.
      - apply andb_prop in Hhd as [Hh Hd].
        destruct k as [|kk]; simpl; unfold filePathWalkDir_visit; rewrite Hh;
          rewrite (last_seg_path_join _ _ Hns).
        + rewrite first_is_dot_dot_name by done. by rewrite Hd.
        + destruct nm as [|c nm']; [done|]. simpl in Hd. by rewrite Hd.
      - apply IHh; [done|]. intros Hh. exists nm. split; [by apply last_seg_path_join|].
        rewrite Hh in Hhd. split; [done|]. by intros _. }
    cbn [walk unhidden_files]. rewrite Hw.
    specialize (IHk IHt Hks). simpl in IHk.
    destruct ((fix go (ks0 : list (string * node)) : option (list string) :=
                 match ks0 with
                 | [] => Some []
                 | (nm0, k0) :: ks' =>
                     match walk (filePathWalkDir_visit cfg) (path_join q nm0) k0 with
                     | Some a => match go ks' with Some b => Some (a ++ b) | None => None end
                     | None => None
                     end
                 end) ks); [|done].
    injection IHk as <-. done.
Qed.

(** X3: on a well-formed directory tree, [filePathWalkDir] returns every
    file below the root in walk order; with [IgnoreHidden] it leaves out
    each entry whose name starts with a dot, with everything below it. *)
Theorem filePathWalkDir_unhidden (cfg : Config) (fs : FS) (root : string)
  (kids : list (string * node)) :
  fs_tree fs root = NDir kids -> wf_node (NDir kids) = true ->
  (IgnoreHidden cfg = true ->
     exists l, GoStr.last_seg (GoStr.split sep root) = Some l /\ dot_name l = false) ->
  filePathWalkDir cfg fs root = Some (unhidden_files (IgnoreHidden cfg) root (NDir kids)).
Proof.
  intros Ht Hwf Hr. unfold filePathWalkDir. rewrite Ht. apply walk_unhidden; [done|].
  intros Hh. destruct (Hr Hh) as [l [Hl Hd]]. exists l. split; [done|]. split; [done|].
  discriminate.
Qed.

Lemma parent_of_app_witness :
  no_sep sep "f.txt" = true /\ parent_of ("/docs/x" ++ "/" ++ "f.txt") = "/docs/x"%string.
Proof.
  assert (H : no_sep sep "f.txt" = true) by reflexivity.
  split; [exact H|exact (parent_of_app "/docs/x" "f.txt" H)].
Defined.

Lemma filePathWalkDir_unhidden_witness :
  let cfg := mkConfig "/ipfs-sync/" "" true [] in
  let kids := [(".git", NDir [("HEAD", NFile)]); ("a", NFile); ("sub", NDir [(".b", NFile); ("c", NFile)])] in
  let fs := mkFS (fun _ => None) (fun _ => None)
              (fun p => if String.eqb p "/d/x" then NDir kids else NFile) in
  fs_tree fs "/d/x" = NDir kids /\ wf_node (NDir kids) = true /\
  (IgnoreHidden cfg = true ->
     exists l, GoStr.last_seg (GoStr.split sep "/d/x") = Some l /\ dot_name l = false) /\
  filePathWalkDir cfg fs "/d/x" = Some ["/d/x/a"; "/d/x/sub/c"].
Proof.
  intros cfg kids fs.
  assert (H1 : fs_tree fs "/d/x" = NDir kids) by reflexivity.
  assert (H2 : wf_node (NDir kids) = true) by reflexivity.
  assert (H3 : IgnoreHidden cfg = true ->
     exists l, GoStr.last_seg (GoStr.split sep "/d/x") = Some l /\ dot_name l = false)
    by (intros _; exists "x"%string; split; reflexivity).
  split; [exact H1|split; [exact H2|split; [exact H3|]]].
  rewrite (filePathWalkDir_unhidden cfg fs "/d/x" kids H1 H2 H3). vm_compute. reflexivity.
Defined.

(** ** Uploads of [AddDir] *)

Lemma trace_ok_ret {A} (P : Call -> Prop) (a : A) : trace_ok P (ret a).
Proof. intros rs c []. Qed.

Lemma trace_ok_abort {A} (P : Call -> Prop) (msg : string) : trace_ok P (@abort A msg).
Proof. intros rs c []. Qed.

Lemma trace_ok_request (P : Call -> Prop) (q : Call) : P q -> trace_ok P (request q).
Proof. intros Hq rs c. destruct rs; simpl; intros [<-|[]]; done. Qed.

Lemma trace_ok_notify (P : Call -> Prop) (q : Call) : P q -> trace_ok P (notify q).
Proof. intros Hq rs c. simpl. intros [<-|[]]; done. Qed.

Lemma trace_ok_rounds (P : Call -> Prop) : trace_ok P rounds.
Proof. intros rs c []. Qed.

Lemma trace_ok_bind {A B} (P : Call -> Prop) (m : M A) (k : A -> M B) :
  trace_ok P m -> (forall a, trace_ok P (k a)) -> trace_ok P (bind m k).
Proof.
  intros Hm Hk rs c. unfold bind.
  destruct (m rs) as [[[a|e] rs1] tr1] eqn:E.
  - destruct (k a rs1) as [[o rs2] tr2] eqn:E2. simpl.
    intros Hin. apply in_app_or in Hin as [Hin|Hin].
    + apply (Hm rs). by rewrite E.
    + apply (Hk a rs1). by rewrite E2.
  - simpl. intros Hin. apply (Hm rs). by rewrite E.
Qed.

Ltac trace_step :=
  repeat match goal with
  | |- trace_ok _ (bind _ _) => apply trace_ok_bind; [|intros ?]
  | |- trace_ok _ (ret _) => apply trace_ok_ret
  | |- trace_ok _ (abort _) => apply trace_ok_abort
  | |- trace_ok _ rounds => apply trace_ok_rounds
  | |- trace_ok _ (request _) => apply trace_ok_request
  | |- trace_ok _ (notify _) => apply trace_ok_notify
  | |- trace_ok _ (if ?b then _ else _) => destruct b
  | |- trace_ok _ (match ?x with _ => _ end) => destruct x
  end.

Lemma AddFile_adds_only (cfg : Config) (from to : string) (nocopy makedir overwrite : bool) :
  trace_ok (adds_only from) (AddFile cfg from to nocopy makedir overwrite).
Proof.
  unfold AddFile. apply trace_ok_bind; [apply trace_ok_rounds|]. intros n.
  revert makedir overwrite. induction n as [|n IH]; intros makedir overwrite; simpl.
  - apply trace_ok_ret.
  - unfold IPFSAddFile, MakeDir, RemoveFile, HandleBadBlockError.
    trace_step; try unfold IPFSAddFile; trace_step;
      try (intros ? ? ? [=]; done); try (intros ? ? ? [=]; congruence); auto.
Qed.

Lemma trace_ok_bind_ret {A B} (P : Call -> Prop) (a : A) (k : A -> M B) :
  trace_ok P (k a) -> trace_ok P (bind (ret a) k).
Proof.
  intros Hk rs c. unfold bind, ret. destruct (k a rs) as [[o rs2] tr2] eqn:E. simpl.
  intros Hin. apply (Hk rs). by rewrite E.
Qed.

Lemma trace_ok_bind_abort {A B} (P : Call -> Prop) (msg : string) (k : A -> M B) :
  trace_ok P (bind (abort msg) k).
Proof. intros rs c. unfold bind, abort. simpl. intros []. Qed.

Lemma trace_ok_impl {A} (P Q : Call -> Prop) (m : M A) :
  (forall c, Q c -> P c) -> trace_ok Q m -> trace_ok P m.
Proof. intros H Hm rs c Hin. apply H. by apply (Hm rs). Qed.

Lemma AddDir_loop_adds (cfg : Config) (path dirName : string) (nocopy : bool)
  (files0 files : list string) (ld : gset string) :
  incl files files0 ->
  trace_ok (AddDir_add_ok cfg files0) (AddDir_loop cfg path dirName nocopy files ld).
Proof.
  revert ld. induction files as [|f rest IH]; intros ld Hincl; simpl; [apply trace_ok_ret|].
  assert (Hf : In f files0) by (apply Hincl; by left).
  assert (Hr : incl rest files0) by (intros x Hx; apply Hincl; by right).
  assert (Hcont : (IgnoreHidden cfg = true ->
                     exists l, GoStr.last_seg (GoStr.split sep f) = Some l /\
                               GoStr.first_is_dot l = Some false) ->
                  trace_ok (AddDir_add_ok cfg files0)
                    (if ignored_suffix cfg f then AddDir_loop cfg path dirName nocopy rest ld
                     else
                       run! AddFile cfg f
                              (dirName ++ "/" ++ GoStr.drop (String.length path) f)%string nocopy
                              (negb (bool_decide (GoStr.join sep (removelast (GoStr.split sep f)) ∈ ld)))
                              false in
                       AddDir_loop cfg path dirName nocopy rest
                         (if negb (bool_decide (GoStr.join sep (removelast (GoStr.split sep f)) ∈ ld))
                          then {[GoStr.join sep (removelast (GoStr.split sep f))]} ∪ ld else ld))).
  { intros Hhid. destruct (ignored_suffix cfg f) eqn:Hsuf; [by apply IH|].
    apply trace_ok_bind; [|intros _; by apply IH].
    eapply trace_ok_impl; [|apply AddFile_adds_only].
    intros c Hc p nc oh ->. rewrite (Hc p nc oh eq_refl). done. }
  destruct (IgnoreHidden cfg) eqn:Hh.
  - destruct (GoStr.last_seg (GoStr.split sep f)) as [l|] eqn:Hl; [|apply trace_ok_bind_abort].
    destruct (GoStr.first_is_dot l) as [[|]|] eqn:Hd; [| |apply trace_ok_bind_abort];
      apply trace_ok_bind_ret; [by apply IH|].
    apply Hcont. intros _. by exists l.
  - apply trace_ok_bind_ret. apply Hcont. discriminate.
Qed.

(** X4: whatever the node answers, every file [AddDir] uploads is one
    [filePathWalkDir] found, its suffix is not ignored, and with
    [IgnoreHidden] its name does not start with a dot. *)
Theorem AddDir_uploads_walked_files (cfg : Config) (fs : FS) (path : string)
  (nocopy pin estuary : bool) (files : list string) :
  filePathWalkDir cfg fs path = Some files ->
  trace_ok (AddDir_add_ok cfg files) (AddDir cfg fs path nocopy pin estuary).
Proof.
  intros Hw. unfold AddDir. rewrite Hw.
  destruct (GoStr.second_last_seg (GoStr.split sep path)) as [dirName|];
    [|apply trace_ok_abort].
  apply trace_ok_bind; [apply AddDir_loop_adds; by intros x|intros _].
  unfold GetFileCID, Pin, PinEstuary, doEstuaryRequest. trace_step; try (intros ? ? ? [=]; done).
Qed.

Lemma AddDir_uploads_walked_files_witness :
  let cfg := mkConfig "/ipfs-sync/" "" true ["swp"] in
  let fs := mkFS (fun _ => None) (fun _ => None)
              (fun p => if String.eqb p "/d/x/"
                        then NDir [(".h", NFile); ("a", NFile); ("b.swp", NFile)] else NFile) in
  filePathWalkDir cfg fs "/d/x/" = Some ["/d/x/a"; "/d/x/b.swp"] /\
  trace_ok (AddDir_add_ok cfg ["/d/x/a"; "/d/x/b.swp"]) (AddDir cfg fs "/d/x/" false true false).
Proof.
  intros cfg fs. split; [vm_compute; reflexivity|].
  apply AddDir_uploads_walked_files. vm_compute. reflexivity.
Defined.

(** ** Start-up hashing ([HashDir] and [Update]) *)

Lemma fold_insert_lookup {V} (b : string -> bool) (g : string -> V)
  (files : list string) (m0 : gmap string V) (x : string) :
  fold_left (fun m f => if b f then m else <[f := g f]> m) files m0 !! x =
  if bool_decide (x ∈ files /\ b x = false) then Some (g x) else m0 !! x.
Proof.
  revert m0. induction files as [|f rest IH]; intros m0; cbn [fold_left].
  - rewrite bool_decide_false; [done|]. intros [Hx _]. by apply elem_of_nil in Hx.
  - rewrite IH. destruct (b f) eqn:Hb.
    + case_bool_decide as H1; case_bool_decide as H2; try done.
      * exfalso. apply H2. destruct H1. split; [by apply elem_of_cons; right|done].
      * exfalso. apply H1. destruct H2 as [Hx ?]. apply elem_of_cons in Hx as [->|]; [congruence|]. tauto.
    + case_bool_decide as H1; case_bool_decide as H2; try done.
      * exfalso. apply H2. destruct H1. split; [by apply elem_of_cons; right|done].
      * destruct (decide (f = x)) as [->|Hne].
        -- by simplify_map_eq.
        -- exfalso. apply H1. destruct H2 as [Hx ?]. apply elem_of_cons in Hx as [->|]; [congruence|]. tauto.
      * destruct (decide (f = x)) as [->|Hne].
        -- exfalso. apply H2. split; [by apply elem_of_cons; left|done].
        -- rewrite lookup_insert_ne; [done|done].
Qed.

(** X5: the map [HashDir] builds has exactly the walked files whose suffix
    is not ignored as keys, each mapped to the [Recalculate] of the hash
    (unless [dontHash]) and timestamp stored for it. *)
Theorem HashDir_lookup (cfg : Config) (fs : FS) (s : Store) (path : string)
  (dontHash : bool) (files : list string) (m : gmap string FileHash) (f : string) :
  filePathWalkDir cfg fs path = Some files ->
  HashDir cfg fs s path dontHash = Some m ->
  m !! f =
  if bool_decide (f ∈ files /\ ignored_suffix cfg f = false)
  then Some (Recalculate fs
               (mkFileHash f (if dontHash then None else db s !! f) (db s !! ts_key f))
               f dontHash)
  else None.
Proof.
  intros Hw Hh. unfold HashDir in Hh. rewrite Hw in Hh. injection Hh as <-.
  rewrite (fold_insert_lookup (ignored_suffix cfg)
    (fun file => Recalculate fs (mkFileHash file (if dontHash then None else db s !! file)
                                  (db s !! ts_key file)) file dontHash)).
  case_bool_decide; [done|]. by rewrite lookup_empty.
Qed.

(** X6: a file [HashDir] loads whose stored timestamp equals its current
    size-and-mtime fingerprint is not reported by [Update], and the store
    is left as it was. *)
Theorem HashDir_unchanged_not_updated (cfg : Config) (fs : FS) (s : Store) (path : string)
  (dontHash : bool) (files : list string) (m : gmap string FileHash) (f : string)
  (fh : FileHash) (v : bytes) :
  filePathWalkDir cfg fs path = Some files ->
  HashDir cfg fs s path dontHash = Some m ->
  m !! f = Some fh ->
  db s !! ts_key f = Some v ->
  GetHashValue fs f true = Some v ->
  Update (Some s) fh = (false, Some s).
Proof.
  intros Hw Hh Hf Hts Hg. rewrite (HashDir_lookup cfg fs s path dontHash files m f Hw Hh) in Hf.
  case_bool_decide; [|done]. injection Hf as <-.
  unfold Recalculate. rewrite Hg, Hts. rewrite decide_True; [|done].
  unfold Update; cbn [Hash FakeHash PathOnDisk go_bytes db].
  destruct s as [d hs]; cbn [db hashes] in *.
  destruct dontHash.
  - rewrite Hts. rewrite decide_True; done.
  - destruct (d !! f) as [h|] eqn:Hdf.
    + rewrite decide_True; [|done]. rewrite Hts. rewrite decide_True; done.
    + rewrite Hts. rewrite decide_True; done.
Qed.

(** X7: a file [HashDir] loads that has neither a hash nor a timestamp in
    the store is reported as updated by [Update]. *)
Theorem HashDir_new_file_updated (cfg : Config) (fs : FS) (s : Store) (path : string)
  (dontHash : bool) (files : list string) (m : gmap string FileHash) (f : string)
  (fh : FileHash) :
  filePathWalkDir cfg fs path = Some files ->
  HashDir cfg fs s path dontHash = Some m ->
  m !! f = Some fh ->
  db s !! f = None ->
  db s !! ts_key f = None ->
  fst (Update (Some s) fh) = true.
Proof.
  intros Hw Hh Hf Hp Hts. rewrite (HashDir_lookup cfg fs s path dontHash files m f Hw Hh) in Hf.
  case_bool_decide; [|done]. injection Hf as <-.
  destruct s as [d hs]; cbn [db hashes] in *.
  assert (Hh0 : (if dontHash then None else d !! f) = None) by (destruct dontHash; done).
  unfold Recalculate. rewrite Hts, Hh0. cbn [go_bytes].
  case_decide.
  - unfold Update; cbn [Hash FakeHash PathOnDisk go_bytes db]. rewrite Hts. done.
  - destruct dontHash.
    + unfold Update; cbn [Hash FakeHash PathOnDisk go_bytes db]. rewrite Hts. done.
    + unfold Update; cbn [Hash FakeHash PathOnDisk go_bytes db].
      destruct (GetHashValue fs f false) as [h|].
      * rewrite Hp. rewrite lookup_insert_ne; [|apply not_eq_sym, ts_key_neq]. rewrite Hts. done.
      * rewrite Hts. done.
Qed.

Lemma HashDir_lookup_witness :
  filePathWalkDir ex_cfg ex_fs "/d/x/" = Some ["/d/x/a"; "/d/x/b"; "/d/x/c.swp"] /\
  HashDir ex_cfg ex_fs ex_store "/d/x/" false = Some ex_map /\
  ex_map !! "/d/x/c.swp" = None.
Proof.
  assert (Hw : filePathWalkDir ex_cfg ex_fs "/d/x/" = Some ["/d/x/a"; "/d/x/b"; "/d/x/c.swp"])
    by (vm_compute; reflexivity).
  assert (Hh : HashDir ex_cfg ex_fs ex_store "/d/x/" false = Some ex_map)
    by (vm_compute; reflexivity).
  split; [exact Hw|split; [exact Hh|]].
  rewrite (HashDir_lookup ex_cfg ex_fs ex_store "/d/x/" false _ ex_map "/d/x/c.swp" Hw Hh).
  vm_compute. reflexivity.
Defined.

Lemma HashDir_unchanged_not_updated_witness :
  ex_map !! "/d/x/a" = Some (ex_fh "/d/x/a") /\
  db ex_store !! ts_key "/d/x/a" = Some (cheap_fingerprint 5 7) /\
  GetHashValue ex_fs "/d/x/a" true = Some (cheap_fingerprint 5 7) /\
  Update (Some ex_store) (ex_fh "/d/x/a") = (false, Some ex_store).
Proof.
  assert (Hw : filePathWalkDir ex_cfg ex_fs "/d/x/" = Some ["/d/x/a"; "/d/x/b"; "/d/x/c.swp"])
    by (vm_compute; reflexivity).
  assert (Hh : HashDir ex_cfg ex_fs ex_store "/d/x/" false = Some ex_map)
    by (vm_compute; reflexivity).
  assert (Hf : ex_map !! "/d/x/a" = Some (ex_fh "/d/x/a")) by (vm_compute; reflexivity).
  assert (Ht : db ex_store !! ts_key "/d/x/a" = Some (cheap_fingerprint 5 7))
    by (vm_compute; reflexivity).
  assert (Hg : GetHashValue ex_fs "/d/x/a" true = Some (cheap_fingerprint 5 7))
    by (vm_compute; reflexivity).
  split; [exact Hf|split; [exact Ht|split; [exact Hg|]]].
  exact (HashDir_unchanged_not_updated ex_cfg ex_fs ex_store "/d/x/" false _ ex_map
           "/d/x/a" (ex_fh "/d/x/a") (cheap_fingerprint 5 7) Hw Hh Hf Ht Hg).
Defined.

Lemma HashDir_new_file_updated_witness :
  ex_map !! "/d/x/b" = Some (ex_fh "/d/x/b") /\
  db ex_store !! "/d/x/b" = None /\
  db ex_store !! ts_key "/d/x/b" = None /\
  fst (Update (Some ex_store) (ex_fh "/d/x/b")) = true.
Proof.
  assert (Hw : filePathWalkDir ex_cfg ex_fs "/d/x/" = Some ["/d/x/a"; "/d/x/b"; "/d/x/c.swp"])
    by (vm_compute; reflexivity).
  assert (Hh : HashDir ex_cfg ex_fs ex_store "/d/x/" false = Some ex_map)
    by (vm_compute; reflexivity).
  assert (Hf : ex_map !! "/d/x/b" = Some (ex_fh "/d/x/b")) by (vm_compute; reflexivity).
  assert (Hp : db ex_store !! "/d/x/b" = None) by (vm_compute; reflexivity).
  assert (Ht : db ex_store !! ts_key "/d/x/b" = None) by (vm_compute; reflexivity).
  split; [exact Hf|split; [exact Hp|split; [exact Ht|]]].
  exact (HashDir_new_file_updated ex_cfg ex_fs ex_store "/d/x/" false _ ex_map
           "/d/x/b" (ex_fh "/d/x/b") Hw Hh Hf Hp Ht).
Defined.

(** ** Estuary pins *)

Lemma find_pin_found (old rid : string) (pre post : list (string * option string)) rs :
  Forall (other_pin old) pre ->
  find_pin old (pre ++ (rid, Some old) :: post) rs = (Done (Some rid), rs, []).
Proof.
  induction 1 as [|[r c] pre [c' [Hc Hne]] _ IH]; simpl.
  - by rewrite String.eqb_refl.
  - simpl in Hc; subst c. apply String.eqb_neq in Hne. by rewrite Hne.
Qed.

Lemma find_pin_none (old : string) (results : list (string * option string)) rs :
  Forall (other_pin old) results ->
  find_pin old results rs = (Done None, rs, []).
Proof.
  induction 1 as [|[r c] pre [c' [Hc Hne]] _ IH]; simpl; [done|].
  simpl in Hc; subst c. apply String.eqb_neq in Hne. by rewrite Hne.
Qed.

(** X8: with a blank Estuary key, [UpdatePinEstuary] and [PinEstuary] make
    no request; [PinEstuary] returns the blank-key error. *)
Theorem Estuary_blank_key_no_request (cfg : Config) (oldcid newcid name : string)
  (rs : list Resp) :
  EstuaryAPIKey cfg = ""%string ->
  UpdatePinEstuary cfg oldcid newcid name rs = (Done tt, rs, []) /\
  PinEstuary cfg newcid name rs = (Done (Some "Estuary API key is blank."%string), rs, []).
Proof.
  intros Hk. unfold UpdatePinEstuary, PinEstuary, doEstuaryRequest. rewrite Hk. done.
Qed.

(** X9: with a key, when the listed pins reach one of the old CID, every
    earlier one being a pin of another CID, [UpdatePinEstuary] replaces that
    pin request; only if the replacement fails does it pin the new CID. *)
Theorem UpdatePinEstuary_replaces (cfg : Config) (oldcid newcid name rid : string)
  (pre post : list (string * option string)) (r2 : Resp) (rest : list Resp) :
  EstuaryAPIKey cfg <> ""%string ->
  Forall (other_pin oldcid) pre ->
  UpdatePinEstuary cfg oldcid newcid name
    (RPins (pre ++ (rid, Some oldcid) :: post) :: r2 :: rest) =
  match err_of r2 with
  | None => (Done tt, rest, [CEstGet oldcid; CEstReplace rid newcid name])
  | Some _ => (Done tt, tail rest,
               [CEstGet oldcid; CEstReplace rid newcid name; CEstPin newcid name])
  end.
Proof.
  intros Hk Hpre. apply String.eqb_neq in Hk.
  unfold UpdatePinEstuary, PinEstuary, doEstuaryRequest, bind at 1. rewrite Hk.
  cbn [request]. unfold bind at 1. rewrite (find_pin_found _ _ _ _ _ Hpre).
  unfold bind, request, ret. destruct r2; destruct rest; done.
Qed.

(** X10: with a key, when no listed pin is of the old CID,
    [UpdatePinEstuary] pins the new CID afresh. *)
Theorem UpdatePinEstuary_fallback_pin (cfg : Config) (oldcid newcid name : string)
  (results : list (string * option string)) (rest : list Resp) :
  EstuaryAPIKey cfg <> ""%string ->
  Forall (other_pin oldcid) results ->
  UpdatePinEstuary cfg oldcid newcid name (RPins results :: rest) =
  (Done tt, tail rest, [CEstGet oldcid; CEstPin newcid name]).
Proof.
  intros Hk Hres. apply String.eqb_neq in Hk.
  unfold UpdatePinEstuary, PinEstuary, doEstuaryRequest, bind at 1. rewrite Hk.
  cbn [request]. unfold bind at 1. rewrite (find_pin_none _ _ _ Hres).
  unfold bind, request, ret. destruct rest; done.
Qed.

Lemma Estuary_blank_key_no_request_witness :
  EstuaryAPIKey (mkConfig "/ipfs-sync/" "" false []) = ""%string /\
  UpdatePinEstuary (mkConfig "/ipfs-sync/" "" false []) "old" "new" "docs" [ROk "x"] =
    (Done tt, [ROk "x"], []) /\
  PinEstuary (mkConfig "/ipfs-sync/" "" false []) "new" "docs" [ROk "x"] =
    (Done (Some "Estuary API key is blank."%string), [ROk "x"], []).
Proof.
  split; [reflexivity|].
  apply Estuary_blank_key_no_request. reflexivity.
Defined.

Lemma UpdatePinEstuary_replaces_witness :
  EstuaryAPIKey (mkConfig "/ipfs-sync/" "k" false []) <> ""%string /\
  Forall (other_pin "old") [("r0", Some "c0"%string)] /\
  UpdatePinEstuary (mkConfig "/ipfs-sync/" "k" false []) "old" "new" "docs"
    (RPins ([("r0", Some "c0"%string)] ++ [("r1", Some "old"%string); ("r2", None)])
       :: RErr "busy" :: []) =
    (Done tt, [], [CEstGet "old"; CEstReplace "r1" "new" "docs"; CEstPin "new" "docs"]).
Proof.
  assert (Hk : EstuaryAPIKey (mkConfig "/ipfs-sync/" "k" false []) <> ""%string) by discriminate.
  assert (Hp : Forall (other_pin "old") [("r0", Some "c0"%string)]).
  { constructor; [|constructor]. exists "c0"%string. split; [reflexivity|discriminate]. }
  split; [exact Hk|split; [exact Hp|]].
  exact (UpdatePinEstuary_replaces _ "old" "new" "docs" "r1" _ [("r2", None)]
           (RErr "busy") [] Hk Hp).
Defined.

Lemma UpdatePinEstuary_fallback_pin_witness :
  EstuaryAPIKey (mkConfig "/ipfs-sync/" "k" false []) <> ""%string /\
  Forall (other_pin "old") [("r0", Some "c0"%string)] /\
  UpdatePinEstuary (mkConfig "/ipfs-sync/" "k" false []) "old" "new" "docs"
    [RPins [("r0", Some "c0"%string)]; ROk ""] =
    (Done tt, [], [CEstGet "old"; CEstPin "new" "docs"]).
Proof.
  assert (Hk : EstuaryAPIKey (mkConfig "/ipfs-sync/" "k" false []) <> ""%string) by discriminate.
  assert (Hp : Forall (other_pin "old") [("r0", Some "c0"%string)]).
  { constructor; [|constructor]. exists "c0"%string. split; [reflexivity|discriminate]. }
  split; [exact Hk|split; [exact Hp|]].
  exact (UpdatePinEstuary_fallback_pin _ "old" "new" "docs" _ [ROk ""] Hk Hp).
Defined.

(** ** The WatchDog loop *)

Lemma post_ok_ret {A} (Q : A -> Prop) (a : A) : Q a -> post_ok Q (ret a).
Proof. intros H rs b rs' tr E. unfold ret in E. by injection E as <-. Qed.

Lemma post_ok_true {A} (m : M A) : post_ok (fun _ => True) m.
Proof. done. Qed.

Lemma post_ok_bind {A B} (P : A -> Prop) (Q : B -> Prop) (m : M A) (k : A -> M B) :
  post_ok P m -> (forall a, P a -> post_ok Q (k a)) -> post_ok Q (bind m k).
Proof.
  intros Hm Hk rs b rs' tr E. unfold bind in E.
  destruct (m rs) as [[[a|e] rs1] tr1] eqn:Em; [|discriminate].
  destruct (k a rs1) as [[o rs2] tr2] eqn:Ek. injection E as -> -> _.
  eapply (Hk a (Hm _ _ _ _ Em)). exact Ek.
Qed.

Lemma post_ok_weaken {A} (P Q : A -> Prop) (m : M A) :
  (forall a, P a -> Q a) -> post_ok P m -> post_ok Q m.
Proof. intros H Hm rs a rs' tr E. apply H. exact (Hm _ _ _ _ E). Qed.

Lemma set_CID_same (d : DirKey) : set_CID d (dk_CID d) = d.
Proof. by destruct d. Qed.

Lemma set_CID_set_CID (d : DirKey) c c' : set_CID (set_CID d c) c' = set_CID d c'.
Proof. by destruct d. Qed.

Lemma dk_CID_set_CID (d : DirKey) c : dk_CID (set_CID d c) = c.
Proof. by destruct d. Qed.

Lemma cid_step_trans d1 d2 d3 : cid_step d1 d2 -> cid_step d2 d3 -> cid_step d1 d3.
Proof.
  intros [E12 H12] [E23 H23]. split.
  - rewrite E23, E12, set_CID_set_CID. reflexivity.
  - destruct H23 as [H|H]; [|by right]. rewrite H. exact H12.
Qed.

Lemma watchdog_step_cid (cfg : Config) (dk : DirKey) :
  post_ok (cid_step dk) (watchdog_step cfg dk).
Proof.
  unfold watchdog_step. apply (post_ok_bind (fun _ => True)); [apply post_ok_true|].
  intros fCID _. destruct (Nat.ltb 0 (String.length fCID) && negb (String.eqb fCID (dk_CID dk))) eqn:Hc.
  - apply (post_ok_bind (fun _ => True)); [apply post_ok_true|]. intros _ _.
    apply (post_ok_bind (fun _ => True)); [apply post_ok_true|]. intros _ _.
    apply (post_ok_bind (fun _ => True)); [apply post_ok_true|]. intros _ _.
    apply post_ok_ret. split; [by rewrite dk_CID_set_CID|].
    right. rewrite dk_CID_set_CID. apply andb_prop in Hc as [Hl _].
    apply Nat.ltb_lt in Hl. intros ->. simpl in Hl. lia.
  - apply post_ok_ret. split; [by rewrite set_CID_same|by left].
Qed.

Lemma watchdog_pass_cid (cfg : Config) (dks : list DirKey) :
  post_ok (Forall2 cid_step dks) (watchdog_pass cfg dks).
Proof.
  induction dks as [|dk rest IH]; simpl.
  - apply post_ok_ret. constructor.
  - apply (post_ok_bind (cid_step dk)); [apply watchdog_step_cid|]. intros dk' Hd.
    apply (post_ok_bind (Forall2 cid_step rest)); [exact IH|]. intros rest' Hr.
    apply post_ok_ret. by constructor.
Qed.

Lemma Forall2_cid_step_refl (dks : list DirKey) : Forall2 cid_step dks dks.
Proof.
  induction dks; constructor; [|done]. split; [by rewrite set_CID_same|by left].
Qed.

Lemma Forall2_cid_step_trans (l1 l2 l3 : list DirKey) :
  Forall2 cid_step l1 l2 -> Forall2 cid_step l2 l3 -> Forall2 cid_step l1 l3.
Proof.
  intros H12. revert l3. induction H12 as [|a b l1 l2 Hab _ IH]; intros l3 H23;
    inversion H23; subst; constructor; [by eapply cid_step_trans|by apply IH].
Qed.

(** X11: a completed run of the WatchDog loop keeps the directory list,
    in order, and changes each directory in its CID alone, which is then
    the old one or a non-empty one. *)
Theorem watchdog_loop_only_sets_cids (cfg : Config) (n : nat) (dks : list DirKey)
  (rs : list Resp) (dks' : list DirKey) (rs' : list Resp) (tr : list Call) :
  watchdog_loop cfg n dks rs = (Done dks', rs', tr) ->
  Forall2 (fun d d' => d' = set_CID d (dk_CID d') /\
                       (dk_CID d' = dk_CID d \/ dk_CID d' <> ""%string)) dks dks'.
Proof.
  revert dks rs tr. induction n as [|n IH]; intros dks rs tr E; simpl in E.
  - unfold ret in E. injection E as <- _ _. apply Forall2_cid_step_refl.
  - unfold bind in E.
    destruct (watchdog_pass cfg dks rs) as [[[d1|e] rs1] tr1] eqn:E1; [|discriminate].
    destruct (watchdog_loop cfg n d1 rs1) as [[o rs2] tr2] eqn:E2. injection E as -> -> _.
    apply (Forall2_cid_step_trans _ d1); [exact (watchdog_pass_cid cfg dks _ _ _ _ E1)|].
    exact (IH d1 rs1 tr2 E2).
Qed.

Lemma watchdog_loop_only_sets_cids_witness :
  let cfg := mkConfig "/ipfs-sync/" "" false [] in
  let d1 := mkDirKey "docs" "/home/u/docs/" "docs" "Q0" false false false false in
  let d2 := mkDirKey "pics" "/home/u/pics/" "pics" "P0" false false false false in
  watchdog_loop cfg 2 [d1; d2] [ROk "Q1"; ROk ""; ROk ""; ROk "Q1"; ROk "P0"] =
    (Done [set_CID d1 "Q1"; d2], [],
     [CStat "/ipfs-sync/docs"; CPublish "Q1" "ipfs-sync.docs"; CStat "/ipfs-sync/pics";
      CStat "/ipfs-sync/docs"; CStat "/ipfs-sync/pics"]) /\
  Forall2 (fun d d' => d' = set_CID d (dk_CID d') /\
                       (dk_CID d' = dk_CID d \/ dk_CID d' <> ""%string))
    [d1; d2] [set_CID d1 "Q1"; d2].
Proof.
  intros cfg d1 d2.
  assert (E : watchdog_loop cfg 2 [d1; d2] [ROk "Q1"; ROk ""; ROk ""; ROk "Q1"; ROk "P0"] =
    (Done [set_CID d1 "Q1"; d2], [],
     [CStat "/ipfs-sync/docs"; CPublish "Q1" "ipfs-sync.docs"; CStat "/ipfs-sync/pics";
      CStat "/ipfs-sync/docs"; CStat "/ipfs-sync/pics"])) by (vm_compute; reflexivity).
  split; [exact E|]. exact (watchdog_loop_only_sets_cids cfg 2 _ _ _ _ _ E).
Defined.

(** ** Watcher events and the fingerprint store *)

Lemma post_ok_bind_ret {A B} (Q : B -> Prop) (a : A) (k : A -> M B) :
  post_ok Q (k a) -> post_ok Q (bind (ret a) k).
Proof.
  intros H rs b rs' tr E. unfold bind, ret in E.
  destruct (k a rs) as [[o rs2] tr2] eqn:Ek. injection E as -> -> _. exact (H _ _ _ _ Ek).
Qed.

Lemma handle_event_unfiltered (cfg : Config) (fs : FS) (w : Watch) (name : string) (op : Op)
  (s : WState) (A : WState -> Prop) :
  passes_filter cfg name ->
  post_ok A (match op with
  | OpCreate =>
      match fs_stat fs name with
      | None => ret s
      | Some st =>
          if negb (st_isdir st) then addFile cfg fs w name true s
          else
            match walk (watchThis cfg) name (fs_tree fs name) with
            | None => abort "panic in watchThis"
            | Some ws =>
                let s1 := mkWState (localDirs s) (list_to_set ws ∪ watches s) (store s) in
                match walk (addDir cfg) name (fs_tree fs name) with
                | None => abort "panic in addDir"
                | Some files => add_files cfg fs w files false s1
                end
            end
      end
  | OpWrite => addFile cfg fs w name true s
  | OpRemove | OpRename =>
      match fs_stat fs name with
      | Some _ => ret s
      | None =>
          let fpath := GoStr.drop (String.length (w_dir w)) name in
          run! RemoveFile cfg (dirName w ++ "/" ++ fpath) in
          ret (mkWState (localDirs s ∖ {[name]}) (watches s ∖ {[name]})
                 (match store s with
                  | None => None
                  | Some st => Delete (Some st) (hashes st !! name) name
                  end))
      end
  | OpChmod => ret s
  end) ->
  post_ok A (handle_event cfg fs w (mkEvent name op) s).
Proof.
  intros [Hne [Hign Hhid]] H. unfold handle_event. cbn [ev_name ev_op].
  apply String.eqb_neq in Hne. rewrite Hne.
  destruct (IgnoreHidden cfg) eqn:Hh.
  - rewrite (Hhid eq_refl). apply post_ok_bind_ret. by rewrite Hign.
  - apply post_ok_bind_ret. by rewrite Hign.
Qed.

Lemma handle_event_write_store (cfg : Config) (fs : FS) (w : Watch) (name : string)
  (s : WState) :
  passes_filter cfg name ->
  post_ok (fun s1 => store s1 = store_put fs (store s) name (w_dontHash w))
    (handle_event cfg fs w (mkEvent name OpWrite) s).
Proof.
  intros Hf. apply handle_event_unfiltered; [exact Hf|]. unfold addFile.
  apply (post_ok_bind (fun _ => True)); [apply post_ok_true|]. intros _ _.
  by apply post_ok_ret.
Qed.

Lemma handle_event_remove_store (cfg : Config) (fs : FS) (w : Watch) (name : string)
  (s : WState) :
  passes_filter cfg name -> fs_stat fs name = None ->
  post_ok (fun s2 => store s2 = match store s with
                                | None => None
                                | Some st => Delete (Some st) (hashes st !! name) name
                                end)
    (handle_event cfg fs w (mkEvent name OpRemove) s).
Proof.
  intros Hf Hs. apply handle_event_unfiltered; [exact Hf|]. rewrite Hs.
  apply (post_ok_bind (fun _ => True)); [apply post_ok_true|]. intros _ _.
  by apply post_ok_ret.
Qed.

Lemma Recalculate_path (fs : FS) (fh : FileHash) (path : string) (dontHash : bool) :
  PathOnDisk (Recalculate fs fh path dontHash) = path.
Proof. unfold Recalculate. by repeat case_decide; destruct dontHash. Qed.

Lemma ts_key_inj (a b : string) : ts_key a = ts_key b -> a = b.
Proof. unfold ts_key. intros H. by injection H. Qed.

Lemma string_prefix_refl (p : string) : String.prefix p p = true.
Proof.
  induction p as [|a p IH]; [done|]. simpl.
  destruct (ascii_dec a a); [exact IH|done].
Qed.

Lemma delete_keys_removes (ks : list string) (s : Store) (k : string) :
  k ∈ ks ->
  db (delete_keys ks s) !! k = None /\ db (delete_keys ks s) !! ts_key k = None /\
  hashes (delete_keys ks s) !! k = None.
Proof.
  assert (Hmono : forall ks s x,
    (db s !! x = None -> db (delete_keys ks s) !! x = None) /\
    (hashes s !! x = None -> hashes (delete_keys ks s) !! x = None)).
  { clear. induction ks as [|k ks IH]; intros s x; [done|]. simpl. split; intros H.
    - apply IH. simpl. rewrite !lookup_delete_None. tauto.
    - apply IH. simpl. rewrite lookup_delete_None. tauto. }
  revert s. induction ks as [|k' ks IH]; intros s Hk; [by apply elem_of_nil in Hk|].
  apply elem_of_cons in Hk as [->|Hk]; simpl.
  - split; [|split].
    + apply Hmono. simpl. rewrite !lookup_delete_None. right. left. done.
    + apply Hmono. simpl. rewrite lookup_delete_None. left. done.
    + apply Hmono. simpl. rewrite lookup_delete_None. left. done.
  - by apply IH.
Qed.

Lemma delete_keys_keeps (ks : list string) (s : Store) (x : string) :
  x ∉ ks -> (forall k, k ∈ ks -> ts_key k <> x) ->
  db (delete_keys ks s) !! x = db s !! x /\ hashes (delete_keys ks s) !! x = hashes s !! x.
Proof.
  revert s. induction ks as [|k ks IH]; intros s Hx Hts; [done|]. simpl.
  rewrite elem_of_cons in Hx.
  destruct (IH (mkStore (delete (ts_key k) (delete k (db s))) (delete k (hashes s)))) as [H1 H2].
  - intros Hin. apply Hx. by right.
  - intros k' Hk'. apply Hts. by apply elem_of_cons; right.
  - rewrite H1, H2. simpl. split.
    + rewrite lookup_delete_ne; [|apply Hts; by apply elem_of_cons; left].
      rewrite lookup_delete_ne; [done|]. intros ->. apply Hx. by left.
    + rewrite lookup_delete_ne; [done|]. intros ->. apply Hx. by left.
Qed.

Lemma prefix_keys_in (p : string) (d : gmap string bytes) (k : string) :
  k ∈ prefix_keys p d <-> String.prefix p k = true /\ is_Some (d !! k).
Proof.
  unfold prefix_keys. rewrite list_elem_of_filter, list_elem_of_In, in_map_iff.
  split; intros [H1 H2]; split; try done.
  - destruct H2 as [[k' v] [Heq Hin]]. simpl in Heq; subst k'.
    apply list_elem_of_In, elem_of_map_to_list in Hin. by exists v.
  - destruct H2 as [v Hv]. exists (k, v). split; [done|].
    by apply list_elem_of_In, elem_of_map_to_list.
Qed.

Lemma Recalculate_fresh (fs : FS) (name : string) (stt : StatInfo) (dontHash : bool) :
  fs_stat fs name = Some stt ->
  Recalculate fs (mkFileHash "" None None) name dontHash =
  mkFileHash name (if dontHash then None else fs_xxhash fs name)
    (Some (cheap_fingerprint (st_size stt) (st_mtime stt))).
Proof.
  intros Hs. unfold Recalculate, GetHashValue. rewrite Hs. cbn [FakeHash Hash go_bytes].
  rewrite decide_False.
  - by destruct dontHash.
  - intros H. apply (f_equal length) in H. rewrite cheap_fingerprint_length in H. discriminate.
Qed.

Lemma store_put_fresh_content (fs : FS) (st : Store) (name : string) (stt : StatInfo)
  (h : bytes) :
  hashes st !! name = None -> fs_stat fs name = Some stt -> fs_xxhash fs name = Some h ->
  exists st1, store_put fs (Some st) name false = Some st1 /\ db st1 !! name = Some h /\
    exists fh, hashes st1 !! name = Some fh /\ PathOnDisk fh = name.
Proof.
  intros Hh Hs Hx. unfold store_put. rewrite Hh, (Recalculate_fresh fs name stt false Hs), Hx.
  unfold Update. cbn [Hash FakeHash PathOnDisk db hashes go_bytes].
  set (cf := cheap_fingerprint (st_size stt) (st_mtime stt)).
  set (d1 := match db st !! name with
             | Some v => if decide (v = h) then (false, db st) else (true, <[name:=h]> (db st))
             | None => (true, <[name:=h]> (db st)) end).
  assert (Hd1 : (snd d1) !! name = Some h).
  { subst d1. destruct (db st !! name) as [v|] eqn:Ev; [case_decide; subst|]; simpl;
      by simplify_map_eq. }
  destruct d1 as [hc dd]. cbn [snd] in Hd1.
  destruct (dd !! ts_key name) as [v|]; [case_decide|];
    (eexists; split; [reflexivity|]); cbn [db hashes];
    (split; [try rewrite lookup_insert_ne by apply ts_key_neq; exact Hd1|]);
    eexists; (split; [by simplify_map_eq|reflexivity]).
Qed.

Lemma Delete_forgets_present (st : Store) (fh : FileHash) (name : string) :
  PathOnDisk fh = name -> is_Some (db st !! name) ->
  exists st2, Delete (Some st) (Some fh) name = Some st2 /\
    db st2 !! name = None /\ db st2 !! ts_key name = None /\ hashes st2 !! name = None.
Proof.
  intros Hp Hin. eexists. split; [reflexivity|]. cbn [delete_path]. rewrite Hp.
  apply delete_keys_removes, prefix_keys_in. split; [apply string_prefix_refl|exact Hin].
Qed.

(** X13: with content hashing, a new file that is written and then
    removed leaves no hash, timestamp or [Hashes] entry in the store. *)
Theorem watcher_write_remove_forgets_file (cfg : Config) (fs1 fs2 : FS) (w : Watch)
  (name : string) (s s1 s2 : WState) (st : Store) (stt : StatInfo) (h : bytes)
  (rs rs1 rs2 : list Resp) (tr1 tr2 : list Call) :
  passes_filter cfg name ->
  w_dontHash w = false ->
  store s = Some st ->
  hashes st !! name = None ->
  fs_stat fs1 name = Some stt ->
  fs_xxhash fs1 name = Some h ->
  fs_stat fs2 name = None ->
  handle_event cfg fs1 w (mkEvent name OpWrite) s rs = (Done s1, rs1, tr1) ->
  handle_event cfg fs2 w (mkEvent name OpRemove) s1 rs1 = (Done s2, rs2, tr2) ->
  exists st2, store s2 = Some st2 /\
    db st2 !! name = None /\ db st2 !! ts_key name = None /\ hashes st2 !! name = None.
Proof.
  intros Hf Hd Hst Hh Hs1 Hx Hs2 E1 E2.
  pose proof (handle_event_write_store cfg fs1 w name s Hf _ _ _ _ E1) as H1.
  pose proof (handle_event_remove_store cfg fs2 w name s1 Hf Hs2 _ _ _ _ E2) as H2.
  rewrite Hst, Hd in H1.
  destruct (store_put_fresh_content fs1 st name stt h Hh Hs1 Hx)
    as [st1 [Hput [Hdb [fh [Hfh Hp]]]]].
  rewrite Hput in H1. rewrite H1, Hfh in H2.
  destruct (Delete_forgets_present st1 fh name Hp) as [st2 [Hdel Hr]]; [by exists h|].
  exists st2. rewrite H2. split; [exact Hdel|exact Hr].
Qed.

Lemma delete_keys_keeps_hashes (ks : list string) (s : Store) (x : string) :
  x ∉ ks -> hashes (delete_keys ks s) !! x = hashes s !! x.
Proof.
  revert s. induction ks as [|k ks IH]; intros s Hx; [done|]. simpl.
  rewrite elem_of_cons in Hx. rewrite IH; [|intros Hin; apply Hx; by right].
  simpl. rewrite lookup_delete_ne; [done|]. intros ->. apply Hx. by left.
Qed.

Lemma store_put_fresh_cheap (fs : FS) (st : Store) (name : string) (stt : StatInfo) :
  hashes st !! name = None -> db st !! name = None -> fs_stat fs name = Some stt ->
  exists st1, store_put fs (Some st) name true = Some st1 /\ db st1 !! name = None /\
    db st1 !! ts_key name = Some (cheap_fingerprint (st_size stt) (st_mtime stt)) /\
    hashes st1 !! name =
      Some (mkFileHash name None (Some (cheap_fingerprint (st_size stt) (st_mtime stt)))).
Proof.
  intros Hh Hd Hs. unfold store_put. rewrite Hh, (Recalculate_fresh fs name stt true Hs).
  unfold Update. cbn [Hash FakeHash PathOnDisk db hashes go_bytes].
  destruct (db st !! ts_key name) as [v|] eqn:Ev; [case_decide|];
    (eexists; split; [reflexivity|]); cbn [db hashes];
    (split; [try rewrite lookup_insert_ne by apply ts_key_neq; exact Hd|]);
    (split; [subst; by simplify_map_eq|by simplify_map_eq]).
Qed.

(** X14: with [dontHash], a new file (no hash key in the store) that is
    written and then removed keeps its timestamp record and its [Hashes]
    entry: [Delete] finds no key under its path. *)
Theorem watcher_cheap_write_remove_keeps_record (cfg : Config) (fs1 fs2 : FS) (w : Watch)
  (name : string) (s s1 s2 : WState) (st : Store) (stt : StatInfo)
  (rs rs1 rs2 : list Resp) (tr1 tr2 : list Call) :
  passes_filter cfg name ->
  w_dontHash w = true ->
  store s = Some st ->
  hashes st !! name = None ->
  db st !! name = None ->
  String.prefix name (ts_key name) = false ->
  fs_stat fs1 name = Some stt ->
  fs_stat fs2 name = None ->
  handle_event cfg fs1 w (mkEvent name OpWrite) s rs = (Done s1, rs1, tr1) ->
  handle_event cfg fs2 w (mkEvent name OpRemove) s1 rs1 = (Done s2, rs2, tr2) ->
  exists st2, store s2 = Some st2 /\
    db st2 !! ts_key name = Some (cheap_fingerprint (st_size stt) (st_mtime stt)) /\
    hashes st2 !! name =
      Some (mkFileHash name None (Some (cheap_fingerprint (st_size stt) (st_mtime stt)))).
Proof.
  intros Hf Hd Hst Hh Hdb Hpre Hs1 Hs2 E1 E2.
  pose proof (handle_event_write_store cfg fs1 w name s Hf _ _ _ _ E1) as H1.
  pose proof (handle_event_remove_store cfg fs2 w name s1 Hf Hs2 _ _ _ _ E2) as H2.
  rewrite Hst, Hd in H1.
  destruct (store_put_fresh_cheap fs1 st name stt Hh Hdb Hs1) as [st1 [Hput [Hn [Hts Hfh]]]].
  rewrite Hput in H1. rewrite H1, Hfh in H2. cbn [Delete delete_path PathOnDisk] in H2.
  eexists. split; [exact H2|]. split.
  - destruct (delete_keys_keeps (prefix_keys name (db st1)) st1 (ts_key name)) as [Hk _].
    + rewrite prefix_keys_in, Hpre. intros [[=] _].
    + intros k Hk E. apply ts_key_inj in E. subst k.
      apply prefix_keys_in in Hk as [_ [v Hv]]. congruence.
    + rewrite Hk. exact Hts.
  - rewrite delete_keys_keeps_hashes; [exact Hfh|].
    rewrite prefix_keys_in. intros [_ [v Hv]]. congruence.
Qed.

Lemma watcher_write_remove_forgets_file_witness :
  let w := mkWatch "/r/" false false in
  let r1 := handle_event ex_w_cfg ex_w_fs1 w (mkEvent "/r/f" OpWrite) ex_w_s ex_w_rs in
  let s1 := final_state r1 ex_w_s in
  let r2 := handle_event ex_w_cfg ex_w_fs2 w (mkEvent "/r/f" OpRemove) s1 (snd (fst r1)) in
  r1 = (Done s1, snd (fst r1), snd r1) /\
  r2 = (Done (final_state r2 s1), snd (fst r2), snd r2) /\
  exists st2, store (final_state r2 s1) = Some st2 /\
    db st2 !! "/r/f" = None /\ db st2 !! ts_key "/r/f" = None /\ hashes st2 !! "/r/f" = None.
Proof.
  intros w r1 s1 r2.
  assert (E1 : r1 = (Done s1, snd (fst r1), snd r1)) by (vm_compute; reflexivity).
  assert (E2 : r2 = (Done (final_state r2 s1), snd (fst r2), snd r2))
    by (vm_compute; reflexivity).
  split; [exact E1|split; [exact E2|]].
  apply (watcher_write_remove_forgets_file ex_w_cfg ex_w_fs1 ex_w_fs2 w "/r/f" ex_w_s s1
           (final_state r2 s1) (mkStore ∅ ∅) (mkStat false 4 9) [7]
           ex_w_rs (snd (fst r1)) (snd (fst r2)) (snd r1) (snd r2)).
  - split; [discriminate|split; [vm_compute; reflexivity|discriminate]].
  - reflexivity.
  - reflexivity.
  - reflexivity.
  - reflexivity.
  - reflexivity.
  - reflexivity.
  - exact E1.
  - exact E2.
Defined.

Lemma watcher_cheap_write_remove_keeps_record_witness :
  let w := mkWatch "/r/" false true in
  let r1 := handle_event ex_w_cfg ex_w_fs1 w (mkEvent "/r/f" OpWrite) ex_w_s ex_w_rs in
  let s1 := final_state r1 ex_w_s in
  let r2 := handle_event ex_w_cfg ex_w_fs2 w (mkEvent "/r/f" OpRemove) s1 (snd (fst r1)) in
  r1 = (Done s1, snd (fst r1), snd r1) /\
  r2 = (Done (final_state r2 s1), snd (fst r2), snd r2) /\
  exists st2, store (final_state r2 s1) = Some st2 /\
    db st2 !! ts_key "/r/f" = Some (cheap_fingerprint 4 9) /\
    hashes st2 !! "/r/f" = Some (mkFileHash "/r/f" None (Some (cheap_fingerprint 4 9))).
Proof.
  intros w r1 s1 r2.
  assert (E1 : r1 = (Done s1, snd (fst r1), snd r1)) by (vm_compute; reflexivity).
  assert (E2 : r2 = (Done (final_state r2 s1), snd (fst r2), snd r2))
    by (vm_compute; reflexivity).
  split; [exact E1|split; [exact E2|]].
  apply (watcher_cheap_write_remove_keeps_record ex_w_cfg ex_w_fs1 ex_w_fs2 w "/r/f" ex_w_s s1
           (final_state r2 s1) (mkStore ∅ ∅) (mkStat false 4 9)
           ex_w_rs (snd (fst r1)) (snd (fst r2)) (snd r1) (snd r2)).
  - split; [discriminate|split; [vm_compute; reflexivity|discriminate]].
  - reflexivity.
  - reflexivity.
  - reflexivity.
  - reflexivity.
  - vm_compute. reflexivity.
  - reflexivity.
  - reflexivity.
  - exact E1.
  - exact E2.
Defined.

(** X12: an event on a name with an ignored suffix, or on a hidden name
    when hidden files are ignored, makes no call and leaves the watcher
    state as it was (when the hidden check does not panic). *)
Theorem handle_event_filtered_noop (cfg : Config) (fs : FS) (w : Watch) (ev : Event)
  (s : WState) (rs : list Resp) :
  (IgnoreHidden cfg = true -> hidden_check (ev_name ev) <> None) ->
  ignored_suffix cfg (ev_name ev) = true \/
  (IgnoreHidden cfg = true /\ hidden_check (ev_name ev) = Some true) ->
  handle_event cfg fs w ev s rs = (Done s, rs, []).
Proof.
  intros Hnp Hf. unfold handle_event.
  destruct (String.eqb (ev_name ev) "") eqn:He; [done|].
  destruct (IgnoreHidden cfg) eqn:Hh.
  - destruct (hidden_check (ev_name ev)) as [b|] eqn:Hc; [|by destruct (Hnp eq_refl)].
    unfold bind, ret at 1. destruct b; [done|].
    destruct Hf as [Hi|[_ Hb]]; [|discriminate]. by rewrite Hi.
  - unfold bind, ret at 1. destruct Hf as [Hi|[? _]]; [|discriminate]. by rewrite Hi.
Qed.

Lemma handle_event_filtered_noop_witness :
  let cfg := mkConfig "/b/" "" true ["swp"] in
  (IgnoreHidden cfg = true -> hidden_check "/r/.x.txt" <> None) /\
  (ignored_suffix cfg "/r/.x.txt" = true \/
   (IgnoreHidden cfg = true /\ hidden_check "/r/.x.txt" = Some true)) /\
  handle_event cfg ex_w_fs1 (mkWatch "/r/" false false) (mkEvent "/r/.x.txt" OpWrite)
    ex_w_s ex_w_rs = (Done ex_w_s, ex_w_rs, []).
Proof.
  intros cfg.
  assert (H1 : IgnoreHidden cfg = true -> hidden_check "/r/.x.txt" <> None)
    by (intros _; vm_compute; discriminate).
  assert (H2 : ignored_suffix cfg "/r/.x.txt" = true \/
               (IgnoreHidden cfg = true /\ hidden_check "/r/.x.txt" = Some true))
    by (right; split; vm_compute; reflexivity).
  split; [exact H1|split; [exact H2|]].
  exact (handle_event_filtered_noop cfg ex_w_fs1 _ (mkEvent "/r/.x.txt" OpWrite) ex_w_s ex_w_rs
           H1 H2).
Defined.

(** ** Block clean-up and name resolution *)

Module NodeProofs.
Import Node NodeSpec.

Lemma RemoveBlock_rounds_trace (n : nat) (cid : string) (ps : list (string * Ans))
  (r : Ans) (rest : list Ans) :
  (length ps < n)%nat ->
  Forall (fun p => GoStr.has_prefix "pinned" (fst p) = true) ps ->
  (forall e, r = AErr e -> GoStr.has_prefix "pinned" e = false) ->
  RemoveBlock_rounds n cid (answers_of ps ++ r :: rest) =
  (Done tt, rest, unpin_trace cid ps ++ [BlockRm cid]).
Proof.
  intros Hn Hps Hr. revert n Hn.
  induction Hps as [|[e a] ps He _ IH]; intros [|n] Hn; cbn [length] in Hn; try lia.
  - cbn [RemoveBlock_rounds answers_of flat_map app]. unfold bind, request, ret.
    destruct r; try reflexivity. rewrite (Hr _ eq_refl). reflexivity.
  - cbn [RemoveBlock_rounds answers_of flat_map fst snd app] in *.
    unfold bind at 1, request at 1. rewrite He.
    unfold bind at 1, request at 1.
    change (answers_of ps) with (flat_map (fun p => [AErr (fst p); snd p]) ps) in IH.
    rewrite (IH n) by lia. reflexivity.
Qed.

(** X15: [RemoveBlock] answers each "pinned" error of [block/rm] with a
    [pin/rm] of the CID the error names (the block itself when it names
    none) and a new [block/rm], and stops at the first other answer. *)
Theorem RemoveBlock_unpins_then_removes (cid : string) (ps : list (string * Ans))
  (r : Ans) (rest : list Ans) :
  Forall (fun p => GoStr.has_prefix "pinned" (fst p) = true) ps ->
  (forall e, r = AErr e -> GoStr.has_prefix "pinned" e = false) ->
  RemoveBlock cid (answers_of ps ++ r :: rest) =
  (Done tt, rest, unpin_trace cid ps ++ [BlockRm cid]).
Proof.
  intros Hps Hr. unfold RemoveBlock, bind at 1, rounds.
  rewrite RemoveBlock_rounds_trace; [reflexivity| |exact Hps|exact Hr].
  assert (Hl : forall qs : list (string * Ans), length (answers_of qs) = (2 * length qs)%nat).
  { induction qs as [|q qs IHq]; [done|]. cbn [answers_of flat_map length app].
    change (flat_map _ qs) with (answers_of qs). rewrite IHq. lia. }
  rewrite length_app, Hl. cbn [length]. lia.
Qed.

Lemma ntrace_ok_ret {A} (P : Req -> Prop) (a : A) : ntrace_ok P (ret a).
Proof. intros rs q []. Qed.

Lemma ntrace_ok_request (P : Req -> Prop) (q : Req) : P q -> ntrace_ok P (request q).
Proof. intros Hq rs q'. destruct rs; simpl; intros [<-|[]]; exact Hq. Qed.

Lemma ntrace_ok_bind {A B} (P : Req -> Prop) (m : M A) (k : A -> M B) :
  ntrace_ok P m -> (forall a, ntrace_ok P (k a)) -> ntrace_ok P (bind m k).
Proof.
  intros Hm Hk rs q. unfold bind.
  destruct (m rs) as [[[a|e] rs1] tr1] eqn:Em.
  - destruct (k a rs1) as [[o rs2] tr2] eqn:Ek. simpl. intros Hin.
    apply in_app_or in Hin as [Hin|Hin].
    + apply (Hm rs). by rewrite Em.
    + apply (Hk a rs1). by rewrite Ek.
  - simpl. intros Hin. apply (Hm rs). by rewrite Em.
Qed.

Lemma ntrace_ok_rounds (P : Req -> Prop) : ntrace_ok P rounds.
Proof. intros rs q []. Qed.

Lemma in_bind_request {B} (q0 q : Req) (k : Ans -> M B) (a : Ans) (rs : list Ans) :
  In q (snd (bind (request q0) k (a :: rs))) -> q = q0 \/ In q (snd (k a rs)).
Proof.
  unfold bind, request. destruct (k a rs) as [[o rs2] tr2]. simpl.
  intros [<-|H]; [by left|by right].
Qed.

Lemma RemoveBlock_reqs (ok : string -> Prop) (c : string) :
  ok c -> ntrace_ok (block_req ok) (RemoveBlock c).
Proof.
  intros Hc. unfold RemoveBlock. apply ntrace_ok_bind; [apply ntrace_ok_rounds|]. intros n.
  induction n as [|n IH]; cbn [RemoveBlock_rounds]; [apply ntrace_ok_ret|].
  apply ntrace_ok_bind; [apply ntrace_ok_request; left; by exists c|]. intros r.
  destruct r; try apply ntrace_ok_ret.
  destruct (GoStr.has_prefix "pinned" msg); [|apply ntrace_ok_ret].
  apply ntrace_ok_bind; [apply ntrace_ok_request; right; eexists; reflexivity|]. intros _.
  exact IH.
Qed.

Lemma remove_refs_reqs (cid : string) (items0 items : list (option (string * string))) :
  incl items items0 ->
  ntrace_ok (block_req (fun x => x = cid \/ exists e, In (Some (e, x)) items0))
    (remove_refs cid items).
Proof.
  induction items as [|[[e ref]|] rest IH]; intros Hi; cbn [remove_refs];
    [apply ntrace_ok_ret| |apply IH; intros y Hy; apply Hi; by right].
  apply ntrace_ok_bind; [|intros _; apply IH; intros y Hy; apply Hi; by right].
  apply RemoveBlock_reqs. destruct (String.eqb ref "") eqn:Er; [by left|].
  right. exists e. apply Hi. by left.
Qed.

(** X16: whatever the node answers, [RemoveCID] removes no block but
    [cid] itself and the refs decoded from the node's first answer. *)
Theorem RemoveCID_removes_only_refs (cid : string) (rs : list Ans) (q : Req) :
  In q (snd (RemoveCID cid rs)) -> RemoveCID_req cid (head rs) q.
Proof.
  unfold RemoveCID.
  destruct rs as [|a rs']; [simpl; intros [<-|[]]; by left|].
  intros Hin. apply in_bind_request in Hin as [->|Hin]; [by left|].
  assert (Hk : ntrace_ok (RemoveCID_req cid (Some a))
    (match a with
     | AErr _ => ret tt
     | _ => let items := match a with ARefs l => l | _ => [] end in
            match items with [] => RemoveBlock cid | _ => remove_refs cid items end
     end)).
  { assert (Hrb : ntrace_ok (RemoveCID_req cid (Some a)) (RemoveBlock cid)).
    { intros rs0 q0 Hq0. right.
      destruct (RemoveBlock_reqs (fun x => x = cid) cid eq_refl rs0 q0 Hq0)
        as [[x [-> Hx]]|[y ->]]; [left; exists x; split; [done|by left]|right; by exists y]. }
    destruct a as [f|e|items|items]; try exact Hrb; [apply ntrace_ok_ret|].
    destruct items as [|i is]; [exact Hrb|].
    intros rs0 q0 Hq0. right.
    destruct (remove_refs_reqs cid (i :: is) (i :: is) (incl_refl _) rs0 q0 Hq0)
      as [[x [-> Hx]]|[y ->]]; [|right; by exists y].
    left. exists x. split; [done|]. destruct Hx as [Hx|[e Hx]]; [by left|].
    right. exists (i :: is), e. done. }
  exact (Hk rs' q Hin).
Qed.

Lemma clean_entries_reqs (items0 items : list (option (Z * string))) :
  incl items items0 ->
  ntrace_ok (block_req (fun x => In (Some (NoFile, x)) items0)) (clean_entries items).
Proof.
  induction items as [|[[st key]|] rest IH]; intros Hi; cbn [clean_entries];
    [apply ntrace_ok_ret| |apply IH; intros y Hy; apply Hi; by right].
  assert (Hr : incl rest items0) by (intros y Hy; apply Hi; by right).
  destruct (Z.eqb st NoFile) eqn:Hs; [|by apply IH].
  apply Z.eqb_eq in Hs. subst st.
  apply ntrace_ok_bind; [|intros _; by apply IH].
  apply RemoveBlock_reqs. apply Hi. by left.
Qed.

(** X17: What [CleanFilestore] may ask the node: nothing when the clean-up lock
    is taken; otherwise the verification listing, the removal of a key
    listed there with status [NoFile], and pin removals. *)
Theorem CleanFilestore_removes_only_missing (locked : bool) (rs : list Ans) (q : Req) :
  In q (snd (CleanFilestore locked rs)) ->
  locked = false /\
  (q = FilestoreVerify \/
   block_req (fun x => exists items, head rs = Some (AEntries items) /\
                                     In (Some (NoFile, x)) items) q).
Proof.
  destruct locked; [intros []|]. unfold CleanFilestore.
  destruct rs as [|a rs']; [simpl; intros [<-|[]]; split; [done|by left]|].
  intros Hin. split; [done|]. apply in_bind_request in Hin as [->|Hin]; [by left|].
  right. destruct a as [f|e|items|items]; try destruct Hin.
  destruct (clean_entries_reqs items items (incl_refl _) rs' q Hin)
    as [[x [-> Hx]]|[y ->]]; [left; exists x; split; [done|]|right; by exists y].
  exists items. done.
Qed.

Lemma str_app_nil_r (s : string) : (s ++ "")%string = s.
Proof. induction s as [|x s IH]; [done|]. change (String x (s ++ "") = String x s). by rewrite IH. Qed.

Lemma split_head_no_sep (c t : string) :
  no_sep sep c = true -> (t = ""%string \/ exists t', t = String sep t') ->
  exists tl, GoStr.split sep (c ++ t) = c :: tl.
Proof.
  intros Hc [->|[t' ->]].
  - exists []. rewrite str_app_nil_r. by apply split_no_sep.
  - exists (GoStr.split sep t'). rewrite split_app_sep, split_no_sep by exact Hc. done.
Qed.

(** X18: [ResolveIPNS] of an answer whose path is [/a/c] followed by nothing or by
    more segments yields [c]. *)
Theorem ResolveIPNS_third_segment (key a c t : string) (rs : list Ans) :
  no_sep sep a = true -> no_sep sep c = true ->
  (t = ""%string \/ exists t', t = String sep t') ->
  ResolveIPNS key (AOk ("/" ++ a ++ "/" ++ c ++ t) :: rs) = (Done (inl c), rs, [NameResolve key]).
Proof.
  intros Ha Hc Ht. unfold ResolveIPNS, bind, request, ret.
  change ("/" ++ a ++ "/" ++ c ++ t)%string with ("" ++ String sep (a ++ String sep (c ++ t)))%string.
  rewrite !split_app_sep, (split_no_sep sep a Ha).
  destruct (split_head_no_sep c t Hc Ht) as [tl ->]. reflexivity.
Qed.

Lemma RemoveBlock_unpins_then_removes_witness :
  Forall (fun p => GoStr.has_prefix "pinned" (fst p) = true)
    [("pinned via QmRoot", AOk ""); ("pinned (recursive)", AOk "")] /\
  (forall e, AOk "" = AErr e -> GoStr.has_prefix "pinned" e = false) /\
  RemoveBlock "Qb" (answers_of [("pinned via QmRoot", AOk ""); ("pinned (recursive)", AOk "")]
                    ++ AOk "" :: []) =
  (Done tt, [], [BlockRm "Qb"; PinRm "QmRoot"; BlockRm "Qb"; PinRm "Qb"; BlockRm "Qb"]).
Proof.
  assert (H1 : Forall (fun p => GoStr.has_prefix "pinned" (fst p) = true)
                 [("pinned via QmRoot", AOk ""); ("pinned (recursive)", AOk "")]).
  { repeat constructor. }
  assert (H2 : forall e, AOk "" = AErr e -> GoStr.has_prefix "pinned" e = false)
    by (intros e [=]).
  split; [exact H1|split; [exact H2|]].
  exact (RemoveBlock_unpins_then_removes "Qb" _ (AOk "") [] H1 H2).
Defined.

Lemma RemoveCID_removes_only_refs_witness :
  let rs := [ARefs [Some ("", "Qr1"); None; Some ("", "")]; AOk ""; AOk ""] in
  In (BlockRm "Qr1") (snd (RemoveCID "Qc" rs)) /\
  RemoveCID_req "Qc" (head rs) (BlockRm "Qr1").
Proof.
  intros rs. assert (H : In (BlockRm "Qr1") (snd (RemoveCID "Qc" rs))).
  { vm_compute. right. left. reflexivity. }
  split; [exact H|exact (RemoveCID_removes_only_refs "Qc" rs _ H)].
Defined.

Lemma CleanFilestore_removes_only_missing_witness :
  let rs := [AEntries [Some (0, "Qok"); Some (11, "Qgone"); None]; AOk ""] in
  In (BlockRm "Qgone") (snd (CleanFilestore false rs)) /\
  (false = false /\
   (BlockRm "Qgone" = FilestoreVerify \/
    block_req (fun x => exists items, head rs = Some (AEntries items) /\
                                      In (Some (NoFile, x)) items) (BlockRm "Qgone"))).
Proof.
  intros rs. assert (H : In (BlockRm "Qgone") (snd (CleanFilestore false rs))).
  { vm_compute. right. left. reflexivity. }
  split; [exact H|exact (CleanFilestore_removes_only_missing false rs _ H)].
Defined.

Lemma ResolveIPNS_third_segment_witness :
  no_sep sep "ipfs" = true /\ no_sep sep "QmX" = true /\
  ("/sub" = ""%string \/ exists t', "/sub"%string = String sep t') /\
  ResolveIPNS "k51" (AOk ("/" ++ "ipfs" ++ "/" ++ "QmX" ++ "/sub") :: [])
    = (Done (inl "QmX"), [], [NameResolve "k51"]).
Proof.
  assert (Ha : no_sep sep "ipfs" = true) by reflexivity.
  assert (Hc : no_sep sep "QmX" = true) by reflexivity.
  assert (Ht : "/sub" = ""%string \/ exists t', "/sub"%string = String sep t')
    by (right; exists "sub"%string; reflexivity).
  split; [exact Ha|split; [exact Hc|split; [exact Ht|]]].
  exact (ResolveIPNS_third_segment "k51" "ipfs" "QmX" "/sub" [] Ha Hc Ht).
Defined.

End NodeProofs.

(** ** Settings and start-up *)

(** X19: The config file's [Ignore] list is never used: the flag's list if it is
    non-empty, the built-in defaults otherwise. *)
Theorem settings_ignore_from_flag_only (PD : string -> option Z) (f : Flags)
  (file : option ConfigFileStruct) :
  s_Ignore (settings_of PD f file) =
  match f_ignore f with [] => default_ignore | l => l end.
Proof. unfold settings_of, loadConfig. destruct file; simpl; by destruct (f_ignore f). Qed.

(** X20: [IgnoreHidden] is on when the flag sets it, or else when a loaded
    config file sets it. *)
Theorem settings_ignorehidden (PD : string -> option Z) (f : Flags)
  (file : option ConfigFileStruct) :
  s_IgnoreHidden (settings_of PD f file) =
  f_ignorehidden f || match file with Some c => c_IgnoreHidden c | None => false end.
Proof. unfold settings_of, loadConfig. destruct file; simpl; by destruct (f_ignorehidden f). Qed.

(** X21: a base path or end point flag that differs from its default wins;
    a flag equal to its default gives way to a non-empty config value. *)
Theorem settings_basepath_precedence (PD : string -> option Z) (f : Flags)
  (file : option ConfigFileStruct) :
  s_BasePath (settings_of PD f file) =
  (if String.eqb (f_basepath f) default_basepath then
     match file with
     | Some c => if String.eqb (c_BasePath c) "" then f_basepath f else c_BasePath c
     | None => f_basepath f
     end
   else f_basepath f) /\
  s_EndPoint (settings_of PD f file) =
  (if String.eqb (f_endpoint f) default_endpoint then
     match file with
     | Some c => if String.eqb (c_EndPoint c) "" then f_endpoint f else c_EndPoint c
     | None => f_endpoint f
     end
   else f_endpoint f).
Proof.
  unfold settings_of, loadConfig. cbn [s_BasePath s_EndPoint].
  split; destruct file as [c|]; cbn [s_BasePath s_EndPoint zero_settings];
    repeat match goal with
    | |- context [String.eqb ?a ?b] => destruct (String.eqb a b) eqn:?
    end; simpl; try done; congruence.
Qed.

(** X22: a sync or timeout flag that differs from its default wins; a flag
    equal to its default gives way to the config file's duration unless that
    is unset, unparsable or zero. *)
Theorem settings_durations_precedence (PD : string -> option Z) (f : Flags)
  (file : option ConfigFileStruct) :
  let cs := match file with Some c => config_duration PD (c_Sync c) | None => 0 end in
  let ct := match file with Some c => config_duration PD (c_Timeout c) | None => 0 end in
  s_SyncTime (settings_of PD f file) =
    (if Z.eqb (f_sync f) default_sync && negb (Z.eqb cs 0) then cs else f_sync f) /\
  s_TimeoutTime (settings_of PD f file) =
    (if Z.eqb (f_timeout f) default_timeout && negb (Z.eqb ct 0) then ct else f_timeout f).
Proof.
  intros cs ct. subst cs ct. unfold settings_of, loadConfig, config_duration.
  destruct file as [c|]; cbn [s_SyncTime s_TimeoutTime zero_settings].
  - split;
      [destruct (String.eqb (c_Sync c) "") eqn:?; [|destruct (PD (c_Sync c)) as [t|] eqn:?]
      |destruct (String.eqb (c_Timeout c) "") eqn:?; [|destruct (PD (c_Timeout c)) as [t|] eqn:?]];
      cbn [s_SyncTime s_TimeoutTime];
      [destruct (Z.eqb (f_sync f) default_sync) | destruct (Z.eqb (f_sync f) default_sync), (Z.eqb t 0)
      | destruct (Z.eqb (f_sync f) default_sync)
      | destruct (Z.eqb (f_timeout f) default_timeout)
      | destruct (Z.eqb (f_timeout f) default_timeout), (Z.eqb t 0) eqn:?
      | destruct (Z.eqb (f_timeout f) default_timeout)]; simpl; try done.
  - split; by destruct (Z.eqb _ _).
Qed.

Lemma substring_app_sep (a : string) :
  substring (String.length a) 1 (a ++ "/") = "/"%string.
Proof.
  induction a as [|x a IH]; [done|].
  change (substring (S (String.length a)) 1 (String x (a ++ "/"))) with
    (substring (String.length a) 1 (a ++ "/")). exact IH.
Qed.

Lemma length_app_sep (a : string) : String.length (a ++ "/") = S (String.length a).
Proof.
  induction a as [|x a IH]; [done|].
  change (S (String.length (a ++ "/")) = S (S (String.length a))). by rewrite IH.
Qed.

Lemma has_suffix_app_sep (a : string) : GoStr.has_suffix "/" (a ++ "/") = true.
Proof.
  unfold GoStr.has_suffix, GoStr.drop. rewrite length_app_sep.
  apply andb_true_intro. split; [apply Nat.leb_le; simpl; lia|].
  apply String.eqb_eq. cbn [String.length].
  replace (S (String.length a) - 1)%nat with (String.length a) by lia.
  replace (S (String.length a) - String.length a)%nat with 1%nat by lia.
  apply substring_app_sep.
Qed.

Lemma with_trailing_sep_spec (d : DirKey) :
  GoStr.has_suffix "/" (dk_Dir (with_trailing_sep d)) = true /\
  (dk_Dir (with_trailing_sep d) = dk_Dir d \/
   dk_Dir (with_trailing_sep d) = (dk_Dir d ++ "/")%string) /\
  with_trailing_sep d = mkDirKey (dk_ID d) (dk_Dir (with_trailing_sep d)) (dk_MFSPath d)
                          (dk_CID d) (dk_Nocopy d) (dk_DontHash d) (dk_Pin d) (dk_Estuary d).
Proof.
  unfold with_trailing_sep. destruct (GoStr.has_suffix "/" (dk_Dir d)) eqn:Hs.
  - split; [exact Hs|split; [by left|by destruct d]].
  - cbn [dk_Dir]. split; [apply has_suffix_app_sep|split; [by right|done]].
Qed.

(** X23: A completed start-up ran neither the license nor the version flag,
    had at least one directory, made the one [version] request, and leaves
    every directory with a trailing separator, each changed in nothing but
    that separator. *)
Theorem ProcessFlags_success_dirs (license version : bool) (dirKeys : list DirKey)
  (dbPath : string) (dbOpen : option (gmap string bytes)) (rs rs' : list Resp)
  (dks : list DirKey) (st : option Store) (tr : list Call) :
  ProcessFlags license version dirKeys dbPath dbOpen rs = (Done (dks, st), rs', tr) ->
  license = false /\ version = false /\ dirKeys <> [] /\ tr = [CVersion] /\
  Forall2 (fun d d' =>
             GoStr.has_suffix "/" (dk_Dir d') = true /\
             (dk_Dir d' = dk_Dir d \/ dk_Dir d' = (dk_Dir d ++ "/")%string) /\
             d' = mkDirKey (dk_ID d) (dk_Dir d') (dk_MFSPath d) (dk_CID d)
                   (dk_Nocopy d) (dk_DontHash d) (dk_Pin d) (dk_Estuary d))
    dirKeys dks.
Proof.
  unfold ProcessFlags. destruct license; [discriminate|]. destruct version; [discriminate|].
  destruct dirKeys as [|d0 ds] eqn:Edk; [discriminate|].
  rewrite <- Edk. destruct (existsb _ dirKeys); [discriminate|].
  set (m := if String.eqb dbPath "" then ret None else _).
  intros E. unfold bind at 1 in E.
  destruct (m rs) as [[[st0|e] rs1] tr1] eqn:Em; [|discriminate].
  assert (Htr1 : tr1 = []).
  { subst m. destruct (String.eqb dbPath ""); [by injection Em|].
    destruct dbOpen; [by injection Em|discriminate]. }
  subst tr1. unfold bind, request in E.
  destruct rs1 as [|r rs2]; cbn [err_of refused] in E;
    [discriminate|destruct (err_of r); [discriminate|]].
  unfold ret in E. injection E as <- _ _ <-.
  split; [done|split; [done|split; [by rewrite Edk|split; [done|]]]].
  clear. induction dirKeys as [|d ds IH]; constructor; [|exact IH].
  apply with_trailing_sep_spec.
Qed.

Lemma ProcessFlags_success_dirs_witness :
  let dks := [mkDirKey "docs" "/home/u/docs" "" "" false false false false;
              mkDirKey "pics" "/home/u/pics/" "" "" false false false false] in
  ProcessFlags false false dks "" None [ROk "0.9"] =
    (Done (map with_trailing_sep dks, None), [], [CVersion]) /\
  Forall2 (fun d d' =>
             GoStr.has_suffix "/" (dk_Dir d') = true /\
             (dk_Dir d' = dk_Dir d \/ dk_Dir d' = (dk_Dir d ++ "/")%string) /\
             d' = mkDirKey (dk_ID d) (dk_Dir d') (dk_MFSPath d) (dk_CID d)
                   (dk_Nocopy d) (dk_DontHash d) (dk_Pin d) (dk_Estuary d))
    dks (map with_trailing_sep dks).
Proof.
  intros dks.
  assert (E : ProcessFlags false false dks "" None [ROk "0.9"] =
              (Done (map with_trailing_sep dks, None), [], [CVersion])) by reflexivity.
  split; [exact E|].
  exact (proj2 (proj2 (proj2 (proj2 (ProcessFlags_success_dirs _ _ _ _ _ _ _ _ _ _ E))))).
Defined.
